(** * Solar rooftop / hybrid system sizer: the sizing and recommendation engine

    A shallow embedding of the calculation core of [app.py]: the reference
    tables, [recommend_panel_by_floor_height], [size_battery],
    [compute_design], the load aggregation [total_kwh], the city lookup
    [city_data], the options of the sidebar form and the calculation of
    the "Calculate System" handler ([calculate_system]).

    Python numbers are modelled as the interpreter has them: an [int] is an
    unbounded integer ([Z]), a [float] is an IEEE 754 binary64 value
    ([spec_float] with precision 53 and maximal exponent 1024, operations
    rounding to nearest, ties to even).  The engine is written once over an
    interface of float operations ([FloatArith]); the instance [B64] is the
    arithmetic the interpreter performs, the instance [Exact] evaluates the
    same program text over the rationals, without rounding of the
    arithmetic operations.

    Laws of the binary64 calculator that hold for all inputs of a range
    (monotonicity of the daily energy, the effect of doubling it) rest on
    a closed form of the rounding of the float operations ([B64Round]):
    every operation on non-negative floats returns the rounding of an
    exact quantity [num / den * 2 ^ e], and that rounding is monotone and
    commutes with a change of binade. *)

From Stdlib Require Import ZArith QArith Qround Bool List Ascii String Lia.
From Stdlib Require Import Floats.SpecFloat.
From stdpp Require Import base option list gmap strings.

Open Scope Z_scope.

(** ** Exceptions *)

Inductive exn : Set :=
  | ZeroDivisionError
  | OverflowError
  | KeyError
  | ValueError
  | IndexError.

Inductive result (A : Type) : Type :=
  | Ok (a : A)
  | Raise (e : exn).
Arguments Ok {A} a.
Arguments Raise {A} e.

#[global] Instance result_ret : MRet result := fun A a => Ok a.
#[global] Instance result_bind : MBind result := fun A B f m =>
  match m with
  | Ok a => f a
  | Raise e => Raise e
  end.

#[global] Instance result_fmap : FMap result := fun A B f m =>
  match m with
  | Ok a => Ok (f a)
  | Raise e => Raise e
  end.

Definition raise_if_none {A} (e : exn) (o : option A) : result A :=
  match o with
  | Some a => Ok a
  | None => Raise e
  end.

Definition returns {A} (m : result A) : Prop := exists a, m = Ok a.

(** ** The float interface *)

Class FloatArith (F : Type) := {
  (* the float nearest to the integer [n] (an infinity when [n] is out of
     range), as [float("<digits of n>")] yields it *)
  f_nearest : Z -> F;
  (* the float nearest to the quotient [n / d], rounded once ([d <> 0]):
     what a decimal literal such as [6.85] denotes, and the value of
     [n / d] on two ints *)
  f_ratio : Z -> Z -> F;
  (* neither an infinity nor a NaN *)
  f_finite : F -> bool;
  f_add : F -> F -> F;
  f_sub : F -> F -> F;
  f_mul : F -> F -> F;
  (* [x / y] for [y != 0] *)
  f_div : F -> F -> F;
  f_eqb : F -> F -> bool;
  f_ltb : F -> F -> bool;
  f_leb : F -> F -> bool;
  (* exact comparison of a float with an int; [None] for a NaN *)
  f_cmp_int : F -> Z -> option comparison;
  (* [round(x, 1)] *)
  f_round1 : F -> F
}.

(** Nearest integer to [num / den], ties to the even one ([0 <= num],
    [0 < den]). *)
Definition round_half_even (num den : Z) : Z :=
  let q := num / den in
  match 2 * (num mod den) ?= den with
  | Lt => q
  | Gt => q + 1
  | Eq => if Z.even q then q else q + 1
  end.

(** ** binary64 *)

Module B64.

Definition prec : Z := 53.
Definition emax : Z := 1024.

Definition add := SFadd prec emax.
Definition sub := SFsub prec emax.
Definition mul := SFmul prec emax.
Definition div := SFdiv prec emax.
Definition valid := valid_binary prec emax.

(** An integer as an (unnormalised) float with exponent 0. *)
Definition raw (n : Z) : spec_float :=
  match n with
  | Z0 => S754_zero false
  | Zpos p => S754_finite false p 0
  | Zneg p => S754_finite true p 0
  end.

Definition finite (x : spec_float) : bool :=
  match x with
  | S754_infinity _ | S754_nan => false
  | _ => true
  end.

Definition nearest (n : Z) : spec_float :=
  binary_normalize prec emax n 0 false.

Definition ratio (n d : Z) : spec_float := div (raw n) (raw d).

Definition cmp_int (x : spec_float) (n : Z) : option comparison :=
  match x with
  | S754_nan => None
  | S754_infinity s => Some (if s then Lt else Gt)
  | S754_zero _ => Some (0 ?= n)
  | S754_finite s m e =>
      let v := if s then Zneg m else Zpos m in
      Some (if 0 <=? e then v * 2 ^ e ?= n else v ?= n * 2 ^ (- e))
  end.

(** [round(x, 1)] on a float: the decimal with one fractional digit
    nearest to the exact value of [x] (ties to even), read back as the
    nearest binary64.  Zeros, infinities and NaN round to themselves. *)
Definition tenths (m : positive) (e : Z) : Z :=
  if 0 <=? e then 10 * Zpos m * 2 ^ e
  else round_half_even (10 * Zpos m) (2 ^ (- e)).

Definition of_tenths (s : bool) (n : Z) : spec_float :=
  match n with
  | Zpos p => div (S754_finite s p 0) (S754_finite false 10 0)
  | _ => S754_zero s
  end.

Definition round1 (x : spec_float) : spec_float :=
  match x with
  | S754_finite s m e => of_tenths s (tenths m e)
  | _ => x
  end.

#[global] Instance ops : FloatArith spec_float := {|
  f_nearest := nearest;
  f_ratio := ratio;
  f_finite := finite;
  f_add := add;
  f_sub := sub;
  f_mul := mul;
  f_div := div;
  f_eqb := SFeqb;
  f_ltb := SFltb;
  f_leb := SFleb;
  f_cmp_int := cmp_int;
  f_round1 := round1
|}.

End B64.

(** ** Exact arithmetic

    The same operations over the rationals: no operation rounds, except
    [round(x, 1)] itself. *)

Module Exact.

Definition cmp_int (x : Q) (n : Z) : option comparison :=
  Some (Qcompare x (inject_Z n)).

Definition tenths (x : Q) : Z :=
  let y := (x * inject_Z 10)%Q in
  Z.sgn (Qnum y) * round_half_even (Z.abs (Qnum y)) (Zpos (Qden y)).

Definition round1 (x : Q) : Q := (inject_Z (tenths x) / inject_Z 10)%Q.

#[global] Instance ops : FloatArith Q := {|
  f_nearest := inject_Z;
  f_ratio := fun n d => (inject_Z n / inject_Z d)%Q;
  f_finite := fun _ => true;
  f_add := Qplus;
  f_sub := Qminus;
  f_mul := Qmult;
  f_div := Qdiv;
  f_eqb := Qeq_bool;
  f_ltb := fun x y => negb (Qle_bool y x);
  f_leb := Qle_bool;
  f_cmp_int := cmp_int;
  f_round1 := round1
|}.

End Exact.

(** ** Python numbers and the operators the engine uses *)

Inductive pynum (F : Type) : Type :=
  | PyInt (n : Z)
  | PyFloat (x : F).
Arguments PyInt {F} n.
Arguments PyFloat {F} x.

Section Operators.
Context {F : Type} `{FloatArith F}.

(** The implicit conversion of an int operand in mixed arithmetic. *)
Definition to_float (n : Z) : result F :=
  let x := f_nearest n in
  if f_finite x then Ok x else Raise OverflowError.

Definition int_truediv (n d : Z) : result F :=
  if d =? 0 then Raise ZeroDivisionError
  else
    let x := f_ratio n d in
    if f_finite x then Ok x else Raise OverflowError.

Definition is_zero (x : F) : bool :=
  match f_cmp_int x 0 with
  | Some Eq => true
  | _ => false
  end.

Definition float_truediv (x y : F) : result F :=
  if is_zero y then Raise ZeroDivisionError else Ok (f_div x y).

Definition py_add (a b : pynum F) : result (pynum F) :=
  match a, b with
  | PyInt m, PyInt n => Ok (PyInt (m + n))
  | PyInt m, PyFloat y => x ← to_float m; Ok (PyFloat (f_add x y))
  | PyFloat x, PyInt n => y ← to_float n; Ok (PyFloat (f_add x y))
  | PyFloat x, PyFloat y => Ok (PyFloat (f_add x y))
  end.

Definition py_sub (a b : pynum F) : result (pynum F) :=
  match a, b with
  | PyInt m, PyInt n => Ok (PyInt (m - n))
  | PyInt m, PyFloat y => x ← to_float m; Ok (PyFloat (f_sub x y))
  | PyFloat x, PyInt n => y ← to_float n; Ok (PyFloat (f_sub x y))
  | PyFloat x, PyFloat y => Ok (PyFloat (f_sub x y))
  end.

Definition py_mul (a b : pynum F) : result (pynum F) :=
  match a, b with
  | PyInt m, PyInt n => Ok (PyInt (m * n))
  | PyInt m, PyFloat y => x ← to_float m; Ok (PyFloat (f_mul x y))
  | PyFloat x, PyInt n => y ← to_float n; Ok (PyFloat (f_mul x y))
  | PyFloat x, PyFloat y => Ok (PyFloat (f_mul x y))
  end.

Definition py_truediv (a b : pynum F) : result (pynum F) :=
  match a, b with
  | PyInt m, PyInt n => PyFloat <$> int_truediv m n
  | PyInt m, PyFloat y => x ← to_float m; PyFloat <$> float_truediv x y
  | PyFloat x, PyInt n => y ← to_float n; PyFloat <$> float_truediv x y
  | PyFloat x, PyFloat y => PyFloat <$> float_truediv x y
  end.

(** Comparisons never raise: an int and a float are compared exactly. *)
Definition py_lt (a b : pynum F) : bool :=
  match a, b with
  | PyInt m, PyInt n => m <? n
  | PyInt m, PyFloat y =>
      match f_cmp_int y m with Some Gt => true | _ => false end
  | PyFloat x, PyInt n =>
      match f_cmp_int x n with Some Lt => true | _ => false end
  | PyFloat x, PyFloat y => f_ltb x y
  end.

Definition py_le (a b : pynum F) : bool :=
  match a, b with
  | PyInt m, PyInt n => m <=? n
  | PyInt m, PyFloat y =>
      match f_cmp_int y m with Some (Gt | Eq) => true | _ => false end
  | PyFloat x, PyInt n =>
      match f_cmp_int x n with Some (Lt | Eq) => true | _ => false end
  | PyFloat x, PyFloat y => f_leb x y
  end.

Definition py_gt (a b : pynum F) : bool := py_lt b a.

Definition py_eq (a b : pynum F) : bool :=
  match a, b with
  | PyInt m, PyInt n => m =? n
  | PyInt m, PyFloat y =>
      match f_cmp_int y m with Some Eq => true | _ => false end
  | PyFloat x, PyInt n =>
      match f_cmp_int x n with Some Eq => true | _ => false end
  | PyFloat x, PyFloat y => f_eqb x y
  end.

(** [min(a, b)]: the first argument unless the second is smaller. *)
Definition py_min (a b : pynum F) : pynum F :=
  if py_lt b a then b else a.

(** [round(a, 1)]: an int is returned unchanged. *)
Definition py_round1 (a : pynum F) : pynum F :=
  match a with
  | PyInt n => PyInt n
  | PyFloat x => PyFloat (f_round1 x)
  end.

(** Truth value of a number in a condition. *)
Definition truthy (a : pynum F) : bool :=
  match a with
  | PyInt n => negb (n =? 0)
  | PyFloat x => negb (is_zero x)
  end.

End Operators.

#[global] Arguments py_lt {F _} a b : simpl never.
#[global] Arguments py_le {F _} a b : simpl never.
#[global] Arguments py_gt {F _} a b : simpl never.
#[global] Arguments py_eq {F _} a b : simpl never.

(** ** Strings: [re.split(r"-", s)], [s.split('-')] and [float(s)] *)

Fixpoint split_on (c : ascii) (s : string) : list string :=
  match s with
  | EmptyString => [EmptyString]
  | String a rest =>
      if Ascii.eqb a c then EmptyString :: split_on c rest
      else
        match split_on c rest with
        | w :: ws => String a w :: ws
        | [] => [String a EmptyString]
        end
  end.

Definition digit_of (a : ascii) : option Z :=
  let n := Z.of_N (N_of_ascii a) in
  if (48 <=? n) && (n <=? 57) then Some (n - 48) else None.

Fixpoint digits_value (acc : Z) (s : string) : option Z :=
  match s with
  | EmptyString => Some acc
  | String a rest =>
      match digit_of a with
      | Some d => digits_value (10 * acc + d) rest
      | None => None
      end
  end.

Section Engine.
Context {F : Type} `{FloatArith F}.

(** A decimal literal of the source: [lit 685 100] is [6.85]. *)
Definition lit (n d : Z) : F := f_ratio n d.

(** [float(s)] for [s] a non-empty string of decimal digits, the only
    spelling the band table uses; every other string is reported as
    ValueError here (the interpreter accepts more spellings: signs,
    fractions, exponents, surrounding blanks). *)
Definition py_float (s : string) : result F :=
  match s with
  | EmptyString => Raise ValueError
  | _ =>
      match digits_value 0 s with
      | Some n => Ok (f_nearest n)
      | None => Raise ValueError
      end
  end.

(** *** 1. City-wise solar and tariff data *)

Record CityProfile := {
  grid_tariff : F;
  export_rate : F;
  ghi : F
}.

Definition city (t t' e e' g g' : Z) : CityProfile :=
  {| grid_tariff := lit t t'; export_rate := lit e e'; ghi := lit g g' |}.

Definition CITY_SOLAR_DATA : gmap string CityProfile :=
  list_to_map [
    ("pune",          city 685 100 390 100 55 10);
    ("mumbai",        city 685 100 390 100 50 10);
    ("delhi",         city 550 100 550 100 53 10);
    ("bangalore",     city 700 100 382 100 51 10);
    ("hyderabad",     city 665 100 315 100 54 10);
    ("chennai",       city 580 100 315 100 53 10);
    ("kolkata",       city 610 100 315 100 45 10);
    ("jaipur",        city 650 100 310 100 57 10);
    ("ahmedabad",     city 610 100 225 100 58 10);
    ("surat",         city 610 100 225 100 56 10);
    ("coimbatore",    city 580 100 315 100 52 10);
    ("lucknow",       city 710 100 382 100 52 10);
    ("gurgaon",       city 600 100 550 100 53 10);
    ("vadodara",      city 610 100 225 100 57 10);
    ("nagpur",        city 685 100 390 100 56 10);
    ("visakhapatnam", city 580 100 315 100 51 10);
    ("indore",        city 700 100 390 100 55 10);
    ("bhubaneswar",   city 610 100 390 100 52 10);
    ("varanasi",      city 710 100 382 100 51 10);
    ("default",       city 685 100 390 100 50 10)
  ]%string.

(** *** 2. Cost and tech constants *)

Definition APPLIANCE_P_RATED : gmap string Z :=
  list_to_map [
    ("AC 1.5 ton", 1600); ("Fridge", 150); ("TV", 120); ("Fan", 60);
    ("Light (LED)", 15); ("Washing Machine", 500);
    ("Laptop", 60); ("Monitor", 30); ("Other", 100)
  ]%string.

Definition DEFAULT_DUTY_HOURS : gmap string (pynum F) :=
  list_to_map [
    ("AC 1.5 ton", PyInt 6); ("Fridge", PyInt 24); ("TV", PyInt 4);
    ("Fan", PyInt 8); ("Light (LED)", PyInt 6);
    ("Washing Machine", PyFloat (lit 5 10));
    ("Laptop", PyInt 4); ("Monitor", PyInt 4); ("Other", PyInt 4)
  ]%string.

Definition DERATE_FACTOR : pynum F := PyFloat (lit 80 100).
Definition PANEL_COST_PER_KW : pynum F := PyInt 45000.
Definition INVERTER_COSTS : gmap string Z :=
  list_to_map [("grid", 12000); ("hybrid", 20000); ("offgrid", 18000)]%string.
Definition BATTERY_COST_PER_KWH : pynum F := PyInt 13000.
Definition SUBSIDY_FLAT_KW : pynum F := PyInt 3.
Definition SUBSIDY_PER_KW_FIRST3 : pynum F := PyInt 26000.

Record PanelBand := {
  floor_height_m : string;
  optimal_panel_type : string;
  recommended_companies : list string;
  typical_wattage_w : Z;
  typical_dimensions_mm : string
}.

Definition PANEL_BY_HEIGHT : list PanelBand := [
  {| floor_height_m := "3-15";
     optimal_panel_type := "Mono PERC / Bifacial";
     recommended_companies := ["LONGi"; "JA Solar"; "Jinko"];
     typical_wattage_w := 490;
     typical_dimensions_mm := "2000 x 1134 x 32" |};
  {| floor_height_m := "16-30";
     optimal_panel_type := "Half-cut Mono PERC / TOPCon";
     recommended_companies := ["Trina"; "Jinko"; "Canadian Solar"];
     typical_wattage_w := 535;
     typical_dimensions_mm := "2278 x 1134 x 35" |};
  {| floor_height_m := "31-45";
     optimal_panel_type := "TOPCon / HJT";
     recommended_companies := ["LONGi"; "JA Solar"; "Trina"];
     typical_wattage_w := 575;
     typical_dimensions_mm := "2384 x 1096 x 35" |};
  {| floor_height_m := "46-60";
     optimal_panel_type := "HJT / Bifacial (reinforced)";
     recommended_companies := ["LONGi"; "JA Solar"; "Canadian Solar"];
     typical_wattage_w := 600;
     typical_dimensions_mm := "2384 x 1134 x 35" |};
  {| floor_height_m := "61-75";
     optimal_panel_type := "HJT / CdTe Thin-film";
     recommended_companies := ["First Solar"; "Trina"];
     typical_wattage_w := 565;
     typical_dimensions_mm := "2200 x 1190 x 35" |};
  {| floor_height_m := "76-90";
     optimal_panel_type := "CdTe Thin-film / Reinforced HJT";
     recommended_companies := ["First Solar"; "LONGi"];
     typical_wattage_w := 565;
     typical_dimensions_mm := "2200 x 1190 x 38" |}
]%string.

(** *** 3. Dataclasses *)

Record SolarDesign := {
  pv_kw : pynum F;
  pv_cost : pynum F;
  roof_area_m2 : pynum F;
  inverter_kw : pynum F;
  inverter_type : string;
  inverter_cost : pynum F;
  battery_kwh : pynum F;
  battery_cost : pynum F;
  payback_years : pynum F
}.

Record PanelRecommendation := {
  panel_type : string;
  brands : list string;
  wattage_w : Z;
  size_mm : string
}.

(** *** 4. Core logic functions *)

(** [lo, hi = map(float, re.split(r"-", s))] *)
Definition parse_range (s : string) : result (F * F) :=
  match split_on "-"%char s with
  | [a; b] => lo ← py_float a; hi ← py_float b; Ok (lo, hi)
  | _ => Raise ValueError
  end.

(** The [for] loop: [Some rec] when it leaves through [break]. *)
Fixpoint scan_bands (height_m : pynum F) (recs : list PanelBand)
  : result (option PanelBand) :=
  match recs with
  | [] => Ok None
  | rec :: rest =>
      '(lo, hi) ← parse_range (floor_height_m rec);
      if py_le (PyFloat lo) height_m && py_le height_m (PyFloat hi)
      then Ok (Some rec)
      else scan_bands height_m rest
  end.

Definition recommendation_of (selected : PanelBand) : PanelRecommendation :=
  {| panel_type := optimal_panel_type selected;
     brands := recommended_companies selected;
     wattage_w := typical_wattage_w selected;
     size_mm := typical_dimensions_mm selected |}.

Section Bands.
(** The band table, a global of the module. *)
Variable bands : list PanelBand.

Definition select_band (height_m : pynum F) : result PanelBand :=
  first ← raise_if_none IndexError (head bands);
  found ← scan_bands height_m bands;
  match found with
  | Some rec => Ok rec
  | None =>
      final ← raise_if_none IndexError (last bands);
      top ← raise_if_none IndexError
              (split_on "-"%char (floor_height_m final) !! 1%nat);
      top ← py_float top;
      if py_gt height_m (PyFloat top) then Ok final else Ok first
  end.

Definition recommend_panel_in (height_m : pynum F)
  : result PanelRecommendation :=
  recommendation_of <$> select_band height_m.
End Bands.

Definition recommend_panel_by_floor_height (height_m : pynum F)
  : result PanelRecommendation :=
  recommend_panel_in PANEL_BY_HEIGHT height_m.

Definition size_battery (outage_hours_week daily_kwh : pynum F)
  : result (pynum F) :=
  share ← py_truediv outage_hours_week (PyInt 168);
  need ← py_mul daily_kwh share;
  need ← py_mul need (PyFloat (lit 12 10));
  Ok (py_round1 need).

(** The subsidy of [compute_design], a local of the function. *)
Definition subsidy_for (pv_kw : pynum F) : result (pynum F) :=
  part ← py_mul (py_min pv_kw SUBSIDY_FLAT_KW) SUBSIDY_PER_KW_FIRST3;
  py_truediv part SUBSIDY_FLAT_KW.

(** The annual savings of [compute_design], a local of the function. *)
Definition annual_savings_for (daily_kwh grid_tariff : pynum F)
  : result (pynum F) :=
  year ← py_mul daily_kwh (PyInt 365);
  py_mul year grid_tariff.

Definition payback_for (pv_cost inv_cost batt_cost annual_savings : pynum F)
  : result (pynum F) :=
  if truthy annual_savings then
    capex ← py_add pv_cost inv_cost;
    capex ← py_add capex batt_cost;
    years ← py_truediv capex annual_savings;
    Ok (py_round1 years)
  else Ok (PyInt 0).

Definition compute_design
    (daily_kwh ghi outage_hours grid_tariff : pynum F)
    (inverter_type : string) : result SolarDesign :=
  array ← py_truediv daily_kwh ghi;
  array ← py_truediv array DERATE_FACTOR;
  let pv_kw := py_round1 array in
  subsidy ← subsidy_for pv_kw;
  gross ← py_mul pv_kw PANEL_COST_PER_KW;
  pv_cost ← py_sub gross subsidy;
  let inv_kw := pv_kw in
  unit ← raise_if_none KeyError (INVERTER_COSTS !! inverter_type);
  inv_cost ← py_mul inv_kw (PyInt unit);
  batt_kwh ← size_battery outage_hours daily_kwh;
  batt_cost ← py_mul batt_kwh BATTERY_COST_PER_KWH;
  annual_savings ← annual_savings_for daily_kwh grid_tariff;
  payback ← payback_for pv_cost inv_cost batt_cost annual_savings;
  area ← py_mul pv_kw (PyFloat (lit 7 1));
  Ok {| pv_kw := pv_kw; pv_cost := pv_cost; roof_area_m2 := area;
        inverter_kw := inv_kw; inverter_type := inverter_type;
        inverter_cost := inv_cost; battery_kwh := batt_kwh;
        battery_cost := batt_cost; payback_years := payback |}.

(** *** 5. The calculation of the "Calculate System" handler *)




(** [CITY_SOLAR_DATA.get(city, CITY_SOLAR_DATA["default"])] *)
Definition city_data (city : string) : result CityProfile :=
  fallback ← raise_if_none KeyError (CITY_SOLAR_DATA !! "default"%string);
  Ok (default fallback (CITY_SOLAR_DATA !! city)).

End Engine.

(** *** 6. The sidebar form and the "Calculate System" handler *)

Section Handler.
Context {F : Type} `{FloatArith F}.

(** The keys of [APPLIANCE_P_RATED], in the order of the dict. *)
Definition APPLIANCE_KINDS : list string :=
  ["AC 1.5 ton"; "Fridge"; "TV"; "Fan"; "Light (LED)"; "Washing Machine";
   "Laptop"; "Monitor"; "Other"]%string.


(** The keys of [CITY_SOLAR_DATA], in the order of the dict. *)
Definition CITY_KEYS : list string :=
  ["pune"; "mumbai"; "delhi"; "bangalore"; "hyderabad"; "chennai";
   "kolkata"; "jaipur"; "ahmedabad"; "surat"; "coimbatore"; "lucknow";
   "gurgaon"; "vadodara"; "nagpur"; "visakhapatnam"; "indore";
   "bhubaneswar"; "varanasi"; "default"]%string.

(** The options of the city selectbox: [list(CITY_SOLAR_DATA.keys())[:-1]] *)
Definition city_options : list string := removelast CITY_KEYS.

(** The options of the inverter radio. *)
Definition inverter_options : list string := ["grid"; "hybrid"; "offgrid"]%string.




End Handler.

(** ** Vocabulary of the properties *)

Section PanelVocabulary.
Context {F : Type} `{FloatArith F}.


(** A band table together with the range each band's string denotes. *)
Definition well_parsed (t : list (PanelBand * (F * F))) : Prop :=
  Forall (fun p => parse_range (floor_height_m p.1) = Ok p.2) t.




Definition PANEL_RANGES : list (F * F) :=
  map (fun p : Z * Z => (f_nearest p.1, f_nearest p.2))
      [(3, 15); (16, 30); (31, 45); (46, 60); (61, 75); (76, 90)].

Definition RANGED_PANELS : list (PanelBand * (F * F)) :=
  zip PANEL_BY_HEIGHT PANEL_RANGES.




End PanelVocabulary.


Module B64Order.
(** Non-NaN floats, ordered as [SFcompare] orders them: by class, then
    by exponent, then by mantissa. *)
Definition key (x : spec_float) : option (Z * Z * Z) :=
  match x with
  | S754_nan => None
  | S754_infinity true => Some (-2, 0, 0)
  | S754_finite true m e => Some (-1, - e, Zneg m)
  | S754_zero _ => Some (0, 0, 0)
  | S754_finite false m e => Some (1, e, Zpos m)
  | S754_infinity false => Some (2, 0, 0)
  end.

Definition lex_compare (a b : Z * Z * Z) : comparison :=
  let '(c1, e1, m1) := a in
  let '(c2, e2, m2) := b in
  match c1 ?= c2 with
  | Eq => match e1 ?= e2 with
          | Eq => m1 ?= m2
          | o => o
          end
  | o => o
  end.

Definition lex_ltb (a b : Z * Z * Z) : bool :=
  let '(c1, e1, m1) := a in
  let '(c2, e2, m2) := b in
  (c1 <? c2) || ((c1 =? c2) && ((e1 <? e2) || ((e1 =? e2) && (m1 <? m2)))).

Definition key_ltb (a b : option (Z * Z * Z)) : bool :=
  match a, b with
  | Some a, Some b => lex_ltb a b
  | _, _ => false
  end.

Definition key_leb (a b : option (Z * Z * Z)) : bool :=
  match a, b with
  | Some a, Some b => negb (lex_ltb b a)
  | _, _ => false
  end.
End B64Order.

(** ** Rounding in binary64, in closed form

    The vocabulary in which the float operations are related to the exact
    quantities they round. *)

Module B64Round.
Import B64.

(** The truncation of [num / den] with its round and sticky bits, and the
    location of [num / den] between two integers. *)
Definition frac_record (num den : Z) : shr_record :=
  {| shr_m := num / den;
     shr_r := den <=? 2 * (num mod den);
     shr_s := negb (num mod den =? 0) && negb (2 * (num mod den) =? den) |}.

Definition frac_loc (num den : Z) : location :=
  if num mod den =? 0 then loc_Exact
  else loc_Inexact (2 * (num mod den) ?= den).

(** What [binary_round_aux] returns on the truncation of
    [num / den * 2 ^ e]. *)
Definition round_formula (s : bool) (num den e : Z) : spec_float :=
  let m := num / den in
  let n := fexp prec emax (Zdigits2 m + e) - e in
  let den1 := if 0 <? n then den * 2 ^ n else den in
  let e1 := if 0 <? n then e + n else e in
  let m2 := round_half_even num den1 in
  let n2 := fexp prec emax (Zdigits2 m2 + e1) - e1 in
  let m3 := if 0 <? n2 then m2 / 2 ^ n2 else m2 in
  let e3 := if 0 <? n2 then e1 + n2 else e1 in
  match m3 with
  | Z0 => S754_zero s
  | Zpos p => if e3 <=? emax - prec then S754_finite s p e3 else S754_infinity s
  | Zneg _ => S754_nan
  end.

(** The exponent at which [num / den * 2 ^ e] is rounded, the integer it
    is rounded to there (ties to even), and the float of a rounded
    mantissa: a mantissa of [2 ^ prec] moves to the next binade, an
    exponent above the largest one overflows to infinity. *)
Definition target (num den e : Z) : Z :=
  fexp prec emax (Zdigits2 (num / den) + e).

Definition scaled (num den e : Z) : Z :=
  round_half_even num (den * 2 ^ (target num den e - e)).

Definition pack (s : bool) (m2 E : Z) : spec_float :=
  if m2 =? 0 then S754_zero s
  else if 2 ^ prec <=? m2 then
    if E + 1 <=? emax - prec
    then S754_finite s (Z.to_pos (2 ^ (prec - 1))) (E + 1)
    else S754_infinity s
  else
    if E <=? emax - prec then S754_finite s (Z.to_pos m2) E
    else S754_infinity s.

(** The order of two quantities [num / den * 2 ^ e]. *)
Definition le_value (num den e num' den' e' : Z) : Prop :=
  num * den' * 2 ^ (e - Z.min e e') <= num' * den * 2 ^ (e' - Z.min e e').

(** The quotient of two positive floats as an exact quantity
    [div_num / my * 2 ^ div_exp]. *)
Definition div_exp (mx : positive) (ex : Z) (my : positive) (ey : Z) : Z :=
  Z.min (fexp prec emax (Zdigits2 (Zpos mx) + ex - (Zdigits2 (Zpos my) + ey)))
        (ex - ey).

Definition div_num (mx : positive) (ex : Z) (my : positive) (ey : Z) : Z :=
  Zpos mx * 2 ^ (ex - ey - div_exp mx ex my ey).

(** The argument [m * 2 ^ e] of [binary_round] as an exact quantity
    [round_num * 2 ^ round_exp]. *)
Definition round_exp (m : positive) (e : Z) : Z :=
  Z.min e (fexp prec emax (Zpos (digits2_pos m) + e)).

Definition round_num (m : positive) (e : Z) : Z :=
  Zpos m * 2 ^ (e - round_exp m e).

(** Floats that are not negative and not NaN, in canonical form. *)
Definition nonneg (x : spec_float) : bool :=
  match x with
  | S754_zero _ | S754_finite false _ _ | S754_infinity false => true
  | _ => false
  end.

Definition good (x : spec_float) : Prop := valid x = true /\ nonneg x = true.

(** [x] is the rounding of the non-negative quantity [num / den * 2 ^ e]. *)
Definition rounds (x : spec_float) (num den e : Z) : Prop :=
  0 <= num /\ 0 < den /\ e <= target num den e /\
  x = pack false (scaled num den e) (target num den e).



(** Positive floats in canonical form with an exponent between [lo] and
    [hi]: above the smallest exponent these are the normal doubles from
    [2 ^ (lo + 52)] to [2 ^ (hi + 53)]. *)
Definition normal_in (lo hi : Z) (x : spec_float) : bool :=
  match x with
  | S754_finite false m e => valid x && (lo <=? e) && (e <=? hi)
  | _ => false
  end.





End B64Round.

Section DesignVocabulary.
Context {F : Type} `{FloatArith F}.

(** The profile stored under the key "default". *)
Definition default_profile : CityProfile := city 685 100 390 100 50 10.


End DesignVocabulary.

(** The closed form of [compute_design] on float arguments, in binary64. *)
Module B64Design.
Import B64.

Definition subsidy_b64 (pv : spec_float) : spec_float :=
  match cmp_int pv 3 with
  | Some Gt => ratio (3 * 26000) 3
  | _ => div (mul pv (nearest 26000)) (nearest 3)
  end.

Definition battery_b64 (o d : spec_float) : spec_float :=
  round1 (mul (mul d (div o (nearest 168))) (ratio 12 10)).

Definition array_b64 (d g : spec_float) : spec_float :=
  round1 (div (div d g) (ratio 80 100)).

Definition savings_b64 (d t : spec_float) : spec_float :=
  mul (mul d (nearest 365)) t.

Definition design_b64 (d g o t : spec_float) (inv : string) (unit : Z)
  : SolarDesign :=
  let pv := array_b64 d g in
  let pv_cost := sub (mul pv (nearest 45000)) (subsidy_b64 pv) in
  let inv_cost := mul pv (nearest unit) in
  let batt := battery_b64 o d in
  let batt_cost := mul batt (nearest 13000) in
  let savings := savings_b64 d t in
  {| pv_kw := PyFloat pv;
     pv_cost := PyFloat pv_cost;
     roof_area_m2 := PyFloat (mul pv (ratio 7 1));
     inverter_kw := PyFloat pv;
     inverter_type := inv;
     inverter_cost := PyFloat inv_cost;
     battery_kwh := PyFloat batt;
     battery_cost := PyFloat batt_cost;
     payback_years :=
       if is_zero savings then PyInt 0
       else PyFloat
              (round1 (div (add (add pv_cost inv_cost) batt_cost) savings)) |}.




End B64Design.

Section ClaimVocabulary.
Context {F : Type} `{FloatArith F}.








End ClaimVocabulary.

Module ExactEnergy.

Definition val (a : pynum Q) : Q :=
  match a with
  | PyInt n => inject_Z n
  | PyFloat x => x
  end.



End ExactEnergy.

(** ** Vocabulary of the sizing, the form and the handler in binary64 *)

Module B64Sizing.
Import B64 B64Round B64Design.

(** The battery of [size_battery] for a whole number of outage hours. *)
Definition battery_int (n : Z) (d : spec_float) : spec_float :=
  round1 (mul (mul d (ratio n 168)) (ratio 12 10)).

(** The design [compute_design] returns for a PV capacity and a battery
    capacity. *)
Definition design_of (pv batt d t : spec_float) (inv : string) (unit : Z)
  : SolarDesign :=
  let pv_cost := sub (mul pv (nearest 45000)) (subsidy_b64 pv) in
  let inv_cost := mul pv (nearest unit) in
  let batt_cost := mul batt (nearest 13000) in
  let savings := savings_b64 d t in
  {| pv_kw := PyFloat pv;
     pv_cost := PyFloat pv_cost;
     roof_area_m2 := PyFloat (mul pv (ratio 7 1));
     inverter_kw := PyFloat pv;
     inverter_type := inv;
     inverter_cost := PyFloat inv_cost;
     battery_kwh := PyFloat batt;
     battery_cost := PyFloat batt_cost;
     payback_years :=
       if is_zero savings then PyInt 0
       else PyFloat
              (round1 (div (add (add pv_cost inv_cost) batt_cost) savings)) |}.

(** A float that is neither negative, nor infinite, nor NaN. *)
Definition measure (x : spec_float) : bool := valid x && nonneg x && finite x.

End B64Sizing.

Module B64Form.
Import B64 B64Round.



End B64Form.

(** * Properties *)

(** ** The exception monad *)

Lemma bind_Ok_inv {A B} (m : result A) (f : A -> result B) (b : B) :
  m ≫= f = Ok b -> exists a, m = Ok a /\ f a = Ok b.
Proof. destruct m as [a|e]; [eauto | discriminate]. Qed.

Lemma fmap_Ok_inv {A B} (f : A -> B) (m : result A) (b : B) :
  f <$> m = Ok b -> exists a, m = Ok a /\ b = f a.
Proof. destruct m as [a|e]; cbn; [intros [= <-]; eauto | discriminate]. Qed.

Lemma returns_Ok {A} (a : A) : returns (Ok a).
Proof. now exists a. Qed.

Create HintDb engine.
#[global] Hint Resolve returns_Ok : engine.

(** Invert every successful bind in the context. *)
Ltac inv_ok :=
  repeat match goal with
  | H : _ ≫= _ = Ok _ |- _ =>
      let a := fresh "v" in
      apply bind_Ok_inv in H; destruct H as (a & ? & H)
  | H : _ <$> _ = Ok _ |- _ =>
      let a := fresh "v" in
      apply fmap_Ok_inv in H; destruct H as (a & H & ?)
  | H : Ok _ = Ok _ |- _ => injection H as H
  | H : Raise _ = Ok _ |- _ => discriminate H
  end.


(** ** The panel resolver, for any arithmetic *)

Section PanelFacts.
Context {F : Type} `{FloatArith F}.
Implicit Types (h : pynum F) (t : list (PanelBand * (F * F))).



(** The upper bound read again by the [else] branch is the one the loop
    parsed. *)
Lemma parse_range_top s lo hi :
  parse_range s = Ok (lo, hi) ->
  exists top, split_on "-" s !! 1%nat = Some top /\ py_float top = Ok hi.
Proof.
  unfold parse_range.
  destruct (split_on "-" s) as [|a [|b [|c l]]]; try discriminate.
  intros Hp. inv_ok. exists b. split; [reflexivity | congruence].
Qed.




Lemma scan_bands_returns (bands : list PanelBand) h :
  Forall (fun b => returns (parse_range (floor_height_m b))) bands ->
  returns (scan_bands h bands).
Proof.
  induction 1 as [|b bands [[lo hi] Hb] _ IH]; cbn; [auto with engine|].
  rewrite Hb; cbn.
  destruct (py_le (PyFloat lo) h && py_le h (PyFloat hi)); auto with engine.
Qed.

(** The resolver raises on no height, whatever the arithmetic, as soon as
    the table is not empty and its range strings parse. *)
Lemma select_band_returns (bands : list PanelBand) h :
  bands <> [] ->
  Forall (fun b => returns (parse_range (floor_height_m b))) bands ->
  returns (select_band bands h).
Proof.
  intros Hne Hall. unfold select_band.
  destruct (head bands) as [first|] eqn:Hhd;
    [|apply head_None in Hhd; contradiction]; cbn.
  destruct (scan_bands_returns bands h Hall) as [[rec|] ->]; cbn;
    [auto with engine|].
  destruct (last bands) as [final|] eqn:Hlast;
    [|apply last_None in Hlast; contradiction]; cbn.
  assert (Hf : returns (parse_range (floor_height_m final))).
  { apply last_Some in Hlast as [l' ->].
    apply Forall_app in Hall as [_ Hall]. exact (Forall_inv Hall). }
  destruct Hf as [[lo hi] Hf].
  apply parse_range_top in Hf as (top & Htop & Hfl).
  rewrite Htop; cbn. rewrite Hfl; cbn.
  destruct (py_gt h (PyFloat hi)); auto with engine.
Qed.

Lemma ranged_panels_bands : (RANGED_PANELS (F:=F)).*1 = PANEL_BY_HEIGHT.
Proof. reflexivity. Qed.

Lemma ranged_panels_parsed : well_parsed (RANGED_PANELS (F:=F)).
Proof. repeat constructor. Qed.

(** C9. The resolver is total over the reference bands: for every roof
    height (non-negative or not, int or float, in any arithmetic) it
    returns a recommendation and raises nothing. *)
Theorem recommend_panel_total h :
  returns (recommend_panel_by_floor_height h).
Proof.
  unfold recommend_panel_by_floor_height, recommend_panel_in.
  destruct (select_band_returns PANEL_BY_HEIGHT h) as [b ->].
  - discriminate.
  - rewrite <- ranged_panels_bands.
    generalize (ranged_panels_parsed).
    generalize (RANGED_PANELS (F:=F)) as t.
    induction 1 as [|[b r] t Hb _ IH]; constructor; [|exact IH].
    exists r. exact Hb.
  - cbn. auto with engine.
Qed.

End PanelFacts.


(** ** The city lookup and the steps of the calculator, for any arithmetic *)

Section EngineFacts.
Context {F : Type} `{FloatArith F}.

Lemma city_default_stored :
  CITY_SOLAR_DATA !! "default"%string = Some default_profile.
Proof. reflexivity. Qed.

(** C8. For every key the city lookup returns the stored profile when the
    key is present and the profile stored under "default" when it is
    absent; it raises for no key. *)
Theorem city_data_lookup (key : string) :
  CITY_SOLAR_DATA !! "default"%string = Some default_profile /\
  (forall p, CITY_SOLAR_DATA !! key = Some p -> city_data key = Ok p) /\
  (CITY_SOLAR_DATA !! key = None -> city_data key = Ok default_profile) /\
  returns (city_data key).
Proof.
  unfold city_data. rewrite city_default_stored. cbn.
  split; [reflexivity|].
  split; [intros p ->; reflexivity|].
  split; [intros ->; reflexivity|].
  auto with engine.
Qed.


End EngineFacts.

Lemma city_data_lookup_witness :
  city_data (F:=spec_float) "pune" = Ok (city 685 100 390 100 55 10) /\
  city_data (F:=spec_float) "atlantis" = Ok default_profile.
Proof.
  split.
  - apply (proj1 (proj2 (city_data_lookup (F:=spec_float) "pune"))).
    reflexivity.
  - apply (proj1 (proj2 (proj2 (city_data_lookup (F:=spec_float) "atlantis")))).
    reflexivity.
Defined.

(** ** The order of binary64 *)

Module B64OrderFacts.
Import B64 B64Order.

Lemma SFcompare_key (x y : spec_float) :
  SFcompare x y =
  match key x, key y with
  | Some a, Some b => Some (lex_compare a b)
  | _, _ => None
  end.
Proof.
  destruct x as [[]|[]| |[] mx ex], y as [[]|[]| |[] my ey]; try reflexivity;
    cbn -[Z.compare]; f_equal.
  rewrite Z.compare_opp, (Z.compare_antisym ex ey).
  change (-1 ?= -1) with Eq. cbn match.
  destruct (ex ?= ey); reflexivity.
Qed.

Lemma lex_compare_Lt a b :
  match lex_compare a b with Lt => true | _ => false end = lex_ltb a b.
Proof.
  destruct a as [[c1 e1] m1], b as [[c2 e2] m2]; unfold lex_compare, lex_ltb.
  destruct (Z.compare_spec c1 c2), (Z.compare_spec e1 e2),
    (Z.compare_spec m1 m2), (Z.ltb_spec c1 c2), (Z.eqb_spec c1 c2),
    (Z.ltb_spec e1 e2), (Z.eqb_spec e1 e2), (Z.ltb_spec m1 m2);
    try reflexivity; lia.
Qed.

Lemma lex_compare_Gt a b :
  match lex_compare a b with Gt => true | _ => false end = lex_ltb b a.
Proof.
  destruct a as [[c1 e1] m1], b as [[c2 e2] m2]; unfold lex_compare, lex_ltb.
  destruct (Z.compare_spec c1 c2), (Z.compare_spec e1 e2),
    (Z.compare_spec m1 m2), (Z.ltb_spec c2 c1), (Z.eqb_spec c2 c1),
    (Z.ltb_spec e2 e1), (Z.eqb_spec e2 e1), (Z.ltb_spec m2 m1);
    try reflexivity; lia.
Qed.

Lemma SFltb_key (x y : spec_float) : SFltb x y = key_ltb (key x) (key y).
Proof.
  unfold SFltb, key_ltb. rewrite SFcompare_key.
  destruct (key x) as [a|], (key y) as [b|]; try reflexivity.
  apply lex_compare_Lt.
Qed.

Lemma SFleb_key (x y : spec_float) : SFleb x y = key_leb (key x) (key y).
Proof.
  unfold SFleb, key_leb. rewrite SFcompare_key.
  destruct (key x) as [a|], (key y) as [b|]; try reflexivity.
  rewrite <- lex_compare_Gt. now destruct (lex_compare a b).
Qed.

Lemma lex_ltb_spec c1 e1 m1 c2 e2 m2 :
  lex_ltb (c1, e1, m1) (c2, e2, m2) = true <->
  c1 < c2 \/ (c1 = c2 /\ (e1 < e2 \/ (e1 = e2 /\ m1 < m2))).
Proof.
  unfold lex_ltb.
  rewrite orb_true_iff, andb_true_iff, orb_true_iff, andb_true_iff,
    !Z.ltb_lt, !Z.eqb_eq.
  tauto.
Qed.


Lemma lex_ltb_asym a b : lex_ltb a b = true -> lex_ltb b a = false.
Proof.
  destruct a as [[? ?] ?], b as [[? ?] ?]. intros Hab.
  apply not_true_is_false. revert Hab. rewrite !lex_ltb_spec. lia.
Qed.






Lemma SFltb_not_leb x y : SFltb x y = true -> SFleb y x = false.
Proof.
  rewrite SFleb_key, SFltb_key.
  destruct (key x), (key y); cbn; try discriminate.
  intros ->. reflexivity.
Qed.

(** A float that compares equal to a finite float is that float. *)
Lemma SFcompare_Eq_finite s m e y :
  SFcompare (S754_finite s m e) y = Some Eq -> y = S754_finite s m e.
Proof.
  destruct y as [?|[]| |s' m' e']; destruct s; try discriminate;
    destruct s'; try discriminate; cbn.
  all: destruct (Z.compare_spec e e'); try discriminate; subst e'.
  all: rewrite Pos.compare_cont_spec; cbn.
  all: destruct (Pos.compare_spec m m'); try discriminate; now subst m'.
Qed.

End B64OrderFacts.

(** ** The panel resolver in binary64 *)

Module B64Panel.
Import B64 B64Order B64OrderFacts.












End B64Panel.

(** ** Arithmetic of binary64 *)

Module B64Arith.
Import B64.

Lemma iter_pos_iter {A} (f : A -> A) (n : positive) (x : A) :
  SpecFloat.iter_pos f n x = Pos.iter f x n.
Proof.
  revert x. induction n as [n IH|n IH|]; intros x; cbn.
  - rewrite !IH. now rewrite <- !Pos.iter_swap.
  - now rewrite !IH.
  - reflexivity.
Qed.



Lemma valid_finite_inv s m e :
  valid (S754_finite s m e) = true ->
  fexp prec emax (Zpos (digits2_pos m) + e) = e /\ e <= emax - prec.
Proof.
  unfold valid, valid_binary, bounded, canonical_mantissa.
  intros [Hc He]%andb_true_iff.
  apply Z.eqb_eq in Hc. apply Z.leb_le in He. now split.
Qed.



Lemma digits2_pos_bounds (m : positive) :
  2 ^ (Zpos (digits2_pos m) - 1) <= Zpos m < 2 ^ Zpos (digits2_pos m).
Proof.
  induction m as [m IH|m IH|]; cbn [digits2_pos]; [| |cbn; lia].
  all: rewrite Pos2Z.inj_succ.
  all: replace (Z.succ (Z.pos (digits2_pos m)) - 1)
         with (Z.succ (Z.pos (digits2_pos m) - 1)) by lia.
  all: rewrite !Z.pow_succ_r by lia; lia.
Qed.

(** The only valid float equal to the int 3 is [3.0]. *)
Lemma valid_three x :
  valid x = true -> cmp_int x 3 = Some Eq -> x = nearest 3.
Proof.
  destruct x as [s|s| |s m e]; try discriminate; [now destruct s|].
  intros [Hc He]%valid_finite_inv. cbn [cmp_int].
  pose proof (digits2_pos_bounds m) as Hd.
  set (d := Zpos (digits2_pos m)) in *.
  assert (Hd1 : 1 <= d) by (subst d; lia).
  unfold fexp, emin, prec, emax in *.
  destruct (Z.leb_spec 0 e) as [Hpos|Hneg]; intros [= Heq%Z.compare_eq].
  - assert (d = 53) by lia. subst d.
    assert (1 <= 2 ^ e) by (apply (Z.pow_le_mono_r 2 0 e); lia).
    replace (digits2_pos m) with 53%positive in Hd by lia.
    change (2 ^ (53 - 1)) with 4503599627370496 in Hd.
    destruct s; nia.
  - assert (0 < 2 ^ (- e)) by (apply Z.pow_pos_nonneg; lia).
    destruct s; [lia|].
    assert (Hk : d = - e + 2).
    { assert (Ha : 2 ^ (d - 1) < 2 ^ (- e + 2)).
      { replace (- e + 2) with (Z.succ (Z.succ (- e))) by lia.
        rewrite !Z.pow_succ_r by lia. lia. }
      assert (Hb : 2 ^ (- e + 1) < 2 ^ d).
      { replace (- e + 1) with (Z.succ (- e)) by lia.
        rewrite Z.pow_succ_r by lia. lia. }
      apply Z.pow_lt_mono_r_iff in Ha; [|lia|lia].
      apply Z.pow_lt_mono_r_iff in Hb; [|lia|lia]. lia. }
    assert (e = -51) by lia. subst e.
    change (2 ^ (- (-51))) with 2251799813685248 in Heq.
    change (nearest 3) with (S754_finite false 6755399441055744 (-51)).
    f_equal. lia.
Qed.

End B64Arith.

(** ** The sizing calculator in binary64 *)

Module B64DesignFacts.
Import B64 B64Arith B64Design.

Lemma inverter_cost_cases (inv : string) (unit : Z) :
  INVERTER_COSTS !! inv = Some unit ->
  unit = 12000 \/ unit = 20000 \/ unit = 18000.
Proof.
  intros Hl. apply elem_of_list_to_map_2 in Hl.
  repeat (apply elem_of_cons in Hl as [[= _ ->]|Hl]; [tauto|]).
  now apply elem_of_nil in Hl.
Qed.

Lemma size_battery_b64 (o d : spec_float) :
  size_battery (PyFloat o) (PyFloat d) = Ok (PyFloat (battery_b64 o d)).
Proof. reflexivity. Qed.

Lemma subsidy_for_b64 (pv : spec_float) :
  subsidy_for (PyFloat pv) = Ok (PyFloat (subsidy_b64 pv)).
Proof.
  unfold subsidy_for, subsidy_b64, SUBSIDY_FLAT_KW, py_min, py_lt.
  cbn [f_cmp_int ops].
  destruct (cmp_int pv 3) as [[]|]; reflexivity.
Qed.

Lemma annual_savings_b64 (d t : spec_float) :
  annual_savings_for (PyFloat d) (PyFloat t) = Ok (PyFloat (savings_b64 d t)).
Proof. reflexivity. Qed.

(** On float arguments [compute_design] raises only for a zero irradiance
    or an unknown inverter type, and otherwise returns the closed form. *)
Lemma compute_design_b64 (d g o t : spec_float) (inv : string) (unit : Z) :
  is_zero g = false -> INVERTER_COSTS !! inv = Some unit ->
  compute_design (PyFloat d) (PyFloat g) (PyFloat o) (PyFloat t) inv =
    Ok (design_b64 d g o t inv unit).
Proof.
  intros Hg Hinv. unfold compute_design.
  cbn [py_truediv fmap result_fmap mbind result_bind].
  unfold float_truediv at 1. rewrite Hg.
  cbn [fmap result_fmap mbind result_bind py_truediv DERATE_FACTOR].
  change (float_truediv (f_div d g) (lit 80 100))
    with (Ok (div (div d g) (ratio 80 100))).
  cbn [fmap result_fmap mbind result_bind py_round1].
  rewrite subsidy_for_b64.
  cbn [fmap result_fmap mbind result_bind py_round1]. rewrite Hinv.
  cbn [raise_if_none fmap result_fmap mbind result_bind py_round1].
  rewrite size_battery_b64, annual_savings_b64.
  apply inverter_cost_cases in Hinv as [-> | [-> | ->]].
  all: unfold design_b64, array_b64, payback_for.
  all: cbn [fmap result_fmap mbind result_bind py_round1 py_mul py_sub py_add
              PANEL_COST_PER_KW BATTERY_COST_PER_KWH].
  all: change (to_float 45000) with (Ok (nearest 45000)).
  all: change (to_float 13000) with (Ok (nearest 13000)).
  all: try change (to_float 12000) with (Ok (nearest 12000)).
  all: try change (to_float 18000) with (Ok (nearest 18000)).
  all: try change (to_float 20000) with (Ok (nearest 20000)).
  all: cbn [fmap result_fmap mbind result_bind py_round1 py_mul py_sub py_add
              truthy f_mul f_add f_sub f_div f_round1 ops py_truediv].
  all: unfold float_truediv.
  all: destruct (is_zero (savings_b64 d t)); reflexivity.
Qed.



Lemma compute_design_b64_inv (d g o t : spec_float) (inv : string)
    (r : SolarDesign) :
  compute_design (PyFloat d) (PyFloat g) (PyFloat o) (PyFloat t) inv = Ok r ->
  exists unit, is_zero g = false /\ INVERTER_COSTS !! inv = Some unit /\
    r = design_b64 d g o t inv unit.
Proof.
  intros Hr.
  destruct (is_zero g) eqn:Hg.
  { unfold compute_design in Hr. cbn [py_truediv] in Hr.
    unfold float_truediv in Hr at 1. rewrite Hg in Hr. discriminate. }
  destruct (INVERTER_COSTS !! inv) as [unit|] eqn:Hinv.
  - rewrite (compute_design_b64 d g o t inv unit Hg Hinv) in Hr.
    injection Hr as <-. eauto.
  - unfold compute_design in Hr. inv_ok.
    match goal with
    | H : raise_if_none KeyError (INVERTER_COSTS !! inv) = Ok _ |- _ =>
        rewrite Hinv in H; discriminate H
    end.
Qed.

Lemma outage_share_table :
  forallb (fun n => finite (ratio n 168)) (map Z.of_nat (seq 0 169)) = true.
Proof. vm_compute. reflexivity. Qed.

Lemma outage_share_finite (n : Z) :
  0 <= n <= 168 -> finite (ratio n 168) = true.
Proof.
  intros Hn.
  apply (proj1 (forallb_forall _ _) outage_share_table).
  apply in_map_iff. exists (Z.to_nat n). split; [lia|].
  apply in_seq. lia.
Qed.





(** C6. The subsidy is [min(pv_kw, 3) * 26000 / 3]: for a PV capacity of
    3 kW or more it is the constant 26000, for a capacity up to 3 kW it is
    [pv_kw * 26000 / 3]; the PV cost of [compute_design] is the panel cost
    less this subsidy. *)
Theorem subsidy_tiers (pv : spec_float) :
  valid pv = true ->
  subsidy_for (PyFloat pv) =
    (part ← py_mul (py_min (PyFloat pv) (PyInt 3)) (PyInt 26000);
     py_truediv part (PyInt 3)) /\
  (py_le (PyInt 3) (PyFloat pv) = true ->
   subsidy_for (PyFloat pv) = Ok (PyFloat (nearest 26000))) /\
  (py_le (PyFloat pv) (PyInt 3) = true ->
   subsidy_for (PyFloat pv) =
     Ok (PyFloat (div (mul pv (nearest 26000)) (nearest 3)))) /\
  (forall (d g o t : spec_float) (inv : string) (r : SolarDesign),
     compute_design (PyFloat d) (PyFloat g) (PyFloat o) (PyFloat t) inv = Ok r ->
     pv_kw r = PyFloat pv ->
     exists s, subsidy_for (PyFloat pv) = Ok (PyFloat s) /\
       pv_cost r = PyFloat (sub (mul pv (nearest 45000)) s)).
Proof.
  intros Hv. split; [reflexivity|]. rewrite subsidy_for_b64.
  unfold py_le, subsidy_b64; cbn [f_cmp_int ops].
  split; [|split].
  - destruct (cmp_int pv 3) as [[]|] eqn:Hc; try discriminate; intros _.
    + rewrite (valid_three pv Hv Hc). reflexivity.
    + reflexivity.
  - destruct (cmp_int pv 3) as [[]|]; try discriminate; reflexivity.
  - intros d g o t inv r Hr Hpv.
    apply compute_design_b64_inv in Hr as (unit & _ & _ & ->).
    cbn [pv_kw design_b64] in Hpv. injection Hpv as Hpv.
    exists (subsidy_b64 pv). split; [reflexivity|].
    cbn [pv_cost design_b64]. now rewrite Hpv.
Qed.

Lemma subsidy_tiers_witness :
  subsidy_for (PyFloat (ratio 45 10)) = Ok (PyFloat (nearest 26000)) /\
  subsidy_for (PyFloat (ratio 15 10)) = Ok (PyFloat (nearest 13000)).
Proof.
  split.
  - apply (proj1 (proj2 (subsidy_tiers (ratio 45 10) eq_refl))). reflexivity.
  - rewrite (proj1 (proj2 (proj2 (subsidy_tiers (ratio 15 10) eq_refl))));
      reflexivity.
Defined.

End B64DesignFacts.

(** ** Rounding to the nearest integer *)


Lemma round_half_even_nonneg (num den : Z) :
  0 < den -> 0 <= num -> 0 <= round_half_even num den.
Proof.
  intros Hd Hn. unfold round_half_even.
  pose proof (Z.div_pos num den Hn Hd).
  destruct (2 * (num mod den) ?= den); [destruct (Z.even (num / den))| |]; lia.
Qed.

Lemma round_half_even_scale (k num den : Z) :
  0 < k -> 0 < den ->
  round_half_even (k * num) (k * den) = round_half_even num den.
Proof.
  intros Hk Hd. unfold round_half_even.
  rewrite Z.div_mul_cancel_l, Z.mul_mod_distr_l by lia.
  assert (Hc : (2 * (k * (num mod den)) ?= k * den) =
               (2 * (num mod den) ?= den)).
  { destruct (Z.compare_spec (2 * (num mod den)) den);
      [apply Z.compare_eq_iff|apply Z.compare_lt_iff|apply Z.compare_gt_iff];
      nia. }
  now rewrite Hc.
Qed.



Lemma round_half_even_mono (a a' b : Z) :
  0 < b -> 0 <= a <= a' -> round_half_even a b <= round_half_even a' b.
Proof.
  intros Hb Ha. unfold round_half_even.
  pose proof (Z.div_mod a b ltac:(lia)).
  pose proof (Z.div_mod a' b ltac:(lia)).
  pose proof (Z.mod_pos_bound a b Hb).
  pose proof (Z.mod_pos_bound a' b Hb).
  assert (a / b <= a' / b) by (apply Z.div_le_mono; lia).
  destruct (Z.eq_dec (a / b) (a' / b)) as [Heq|Hne].
  - rewrite Heq in *.
    destruct (Z.compare_spec (2 * (a mod b)) b),
      (Z.compare_spec (2 * (a' mod b)) b);
      destruct (Z.even (a' / b)); lia.
  - destruct (2 * (a mod b) ?= b), (2 * (a' mod b) ?= b);
      destruct (Z.even (a / b)), (Z.even (a' / b)); lia.
Qed.


(** ** Rounding in binary64 *)

Module B64RoundFacts.
Import B64 B64Order B64OrderFacts B64Arith B64Round.

Lemma frac_record_of_loc num den :
  0 < den ->
  shr_record_of_loc (num / den) (frac_loc num den) = frac_record num den.
Proof.
  intros Hd. unfold frac_loc, frac_record.
  pose proof (Z.mod_pos_bound num den Hd).
  destruct (Z.eqb_spec (num mod den) 0) as [E|E]; cbn [shr_record_of_loc negb andb].
  - rewrite E. destruct (Z.leb_spec den (2 * 0)); [lia|reflexivity].
  - destruct (Z.compare_spec (2 * (num mod den)) den) as [C|C|C];
      cbn [shr_record_of_loc negb andb].
    + rewrite C, Z.leb_refl, Z.eqb_refl. reflexivity.
    + destruct (Z.leb_spec den (2 * (num mod den))); [lia|].
      destruct (Z.eqb_spec (2 * (num mod den)) den); [lia|reflexivity].
    + destruct (Z.leb_spec den (2 * (num mod den))); [|lia].
      destruct (Z.eqb_spec (2 * (num mod den)) den); [lia|reflexivity].
Qed.

Lemma shr_1_frac num den :
  0 <= num -> 0 < den ->
  shr_1 (frac_record num den) = frac_record num (2 * den).
Proof.
  intros Hn Hd. unfold frac_record.
  pose proof (Z.mod_pos_bound num den Hd) as Hr.
  pose proof (Z.div_pos num den Hn Hd) as Hq.
  assert (Hdiv : num / (2 * den) = num / den / 2)
    by (rewrite (Z.mul_comm 2 den), Z.div_div by lia; reflexivity).
  assert (Hmod : num mod (2 * den) = num mod den + den * ((num / den) mod 2))
    by (rewrite (Z.mul_comm 2 den); apply Z.rem_mul_r; lia).
  rewrite Hdiv, Hmod.
  set (m := num / den) in *. set (r := num mod den) in *.
  assert (Hs : (den <=? 2 * r) || negb (r =? 0) && negb (2 * r =? den)
               = negb (r =? 0)).
  { destruct (Z.leb_spec den (2 * r)), (Z.eqb_spec r 0), (Z.eqb_spec (2 * r) den);
      cbn; try reflexivity; lia. }
  unfold shr_1. rewrite Hs.
  destruct m as [|[p|p|]|p]; try lia.
  - change (0 / 2) with 0. change (0 mod 2) with 0. f_equal.
    + destruct (Z.leb_spec (2 * den) (2 * (r + den * 0))); [lia|reflexivity].
    + destruct (Z.eqb_spec r 0), (Z.eqb_spec (r + den * 0) 0),
        (Z.eqb_spec (2 * (r + den * 0)) (2 * den)); cbn; try reflexivity; lia.
  - replace (Z.pos p~1 / 2) with (Z.pos p) by (rewrite Pos2Z.inj_xI, Z.mul_comm, Z.div_add_l by lia; reflexivity).
    replace (Z.pos p~1 mod 2) with 1 by (rewrite Pos2Z.inj_xI, Z.add_comm, Z.mul_comm, Z.mod_add by lia; reflexivity).
    f_equal.
    + destruct (Z.leb_spec (2 * den) (2 * (r + den * 1))); [reflexivity|lia].
    + destruct (Z.eqb_spec r 0), (Z.eqb_spec (r + den * 1) 0),
        (Z.eqb_spec (2 * (r + den * 1)) (2 * den)); cbn; try reflexivity; lia.
  - replace (Z.pos p~0 / 2) with (Z.pos p) by (rewrite Pos2Z.inj_xO, Z.mul_comm, Z.div_mul by lia; reflexivity).
    replace (Z.pos p~0 mod 2) with 0 by (rewrite Pos2Z.inj_xO, Z.mul_comm, Z.mod_mul by lia; reflexivity).
    f_equal.
    + destruct (Z.leb_spec (2 * den) (2 * (r + den * 0))); [lia|reflexivity].
    + destruct (Z.eqb_spec r 0), (Z.eqb_spec (r + den * 0) 0),
        (Z.eqb_spec (2 * (r + den * 0)) (2 * den)); cbn; try reflexivity; lia.
  - change (1 / 2) with 0. change (1 mod 2) with 1. f_equal.
    + destruct (Z.leb_spec (2 * den) (2 * (r + den * 1))); [reflexivity|lia].
    + destruct (Z.eqb_spec r 0), (Z.eqb_spec (r + den * 1) 0),
        (Z.eqb_spec (2 * (r + den * 1)) (2 * den)); cbn; try reflexivity; lia.
Qed.

Lemma shr_iter_frac num den (n : positive) :
  0 <= num -> 0 < den ->
  SpecFloat.iter_pos shr_1 n (frac_record num den)
  = frac_record num (den * 2 ^ Zpos n).
Proof.
  intros Hn Hd. rewrite iter_pos_iter.
  induction n as [|n IH] using Pos.peano_ind.
  - cbn [Pos.iter]. rewrite shr_1_frac by assumption. f_equal. lia.
  - assert (0 < 2 ^ Zpos n) by (apply Z.pow_pos_nonneg; lia).
    rewrite Pos.iter_succ, IH, shr_1_frac by nia.
    f_equal. rewrite Pos2Z.inj_succ, Z.pow_succ_r by lia. lia.
Qed.

Lemma round_frac_record num den :
  0 < den ->
  round_nearest_even (shr_m (frac_record num den))
    (loc_of_shr_record (frac_record num den)) = round_half_even num den.
Proof.
  intros Hd. unfold frac_record, round_half_even. cbn [shr_m].
  pose proof (Z.mod_pos_bound num den Hd).
  unfold loc_of_shr_record.
  destruct (Z.compare_spec (2 * (num mod den)) den) as [C|C|C].
  - rewrite C, Z.leb_refl, Z.eqb_refl, andb_false_r. reflexivity.
  - destruct (Z.leb_spec den (2 * (num mod den))); [lia|].
    destruct (negb (num mod den =? 0) && negb (2 * (num mod den) =? den));
      reflexivity.
  - destruct (Z.leb_spec den (2 * (num mod den))); [|lia].
    destruct (Z.eqb_spec (num mod den) 0); [lia|].
    destruct (Z.eqb_spec (2 * (num mod den)) den); [lia|]. reflexivity.
Qed.

Lemma shr_frac num den e n :
  0 <= num -> 0 < den ->
  shr (frac_record num den) e n =
  (frac_record num (if 0 <? n then den * 2 ^ n else den),
   if 0 <? n then e + n else e).
Proof.
  intros Hn Hd. destruct n as [|p|p]; cbn [shr Z.ltb Z.compare]; try reflexivity.
  now rewrite shr_iter_frac.
Qed.

Lemma exact_record m : {| shr_m := m; shr_r := false; shr_s := false |} = frac_record m 1.
Proof.
  unfold frac_record. rewrite Z.div_1_r, Z.mod_1_r. reflexivity.
Qed.

Lemma binary_round_aux_formula s num den e :
  0 <= num -> 0 < den ->
  binary_round_aux prec emax s (num / den) e (frac_loc num den)
  = round_formula s num den e.
Proof.
  intros Hn Hd. unfold binary_round_aux, shr_fexp, round_formula.
  rewrite frac_record_of_loc, shr_frac by assumption.
  set (n := fexp prec emax (Zdigits2 (num / den) + e) - e).
  set (den1 := if 0 <? n then den * 2 ^ n else den).
  set (e1 := if 0 <? n then e + n else e).
  assert (Hd1 : 0 < den1).
  { subst den1. destruct (Z.ltb_spec 0 n); [|assumption].
    assert (0 < 2 ^ n) by (apply Z.pow_pos_nonneg; lia). nia. }
  rewrite round_frac_record by assumption.
  set (m2 := round_half_even num den1).
  cbn [shr_record_of_loc]. rewrite exact_record.
  assert (Hm2 : 0 <= m2).
  { subst m2. unfold round_half_even.
    pose proof (Z.div_pos num den1 Hn Hd1).
    destruct (2 * (num mod den1) ?= den1); [destruct (Z.even _)| |]; lia. }
  rewrite shr_frac by lia.
  set (n2 := fexp prec emax (Zdigits2 m2 + e1) - e1).
  cbn [shr_m frac_record].
  destruct (Z.ltb_spec 0 n2).
  - rewrite Z.mul_1_l. reflexivity.
  - rewrite Z.div_1_r. reflexivity.
Qed.

(** *** Powers of two and binary digits *)

Lemma pow2_pos (k : Z) : 0 <= k -> 0 < 2 ^ k.
Proof. intros. apply Z.pow_pos_nonneg; lia. Qed.

Lemma pow2_le (a b : Z) : 0 <= a <= b -> 2 ^ a <= 2 ^ b.
Proof. intros. apply Z.pow_le_mono_r; lia. Qed.

Lemma pow2_lt (a b : Z) : 0 <= a < b -> 2 ^ a < 2 ^ b.
Proof. intros. apply Z.pow_lt_mono_r; lia. Qed.

Lemma pow2_lt_inv (a b : Z) : 0 <= b -> 2 ^ a < 2 ^ b -> a < b.
Proof. intros Hb H. apply (Z.pow_lt_mono_r_iff 2); lia. Qed.

Lemma pow2_add (a b : Z) : 0 <= a -> 0 <= b -> 2 ^ (a + b) = 2 ^ a * 2 ^ b.
Proof. intros. apply Z.pow_add_r; lia. Qed.

Lemma Zdigits2_nonneg (m : Z) : 0 <= Zdigits2 m.
Proof. destruct m; cbn; lia. Qed.

Lemma Zdigits2_bounds (m : Z) :
  0 < m -> 2 ^ (Zdigits2 m - 1) <= m < 2 ^ Zdigits2 m.
Proof. destruct m as [|p|p]; try lia. intros _. apply digits2_pos_bounds. Qed.

Lemma Zdigits2_pos (m : Z) : 0 < m -> 0 < Zdigits2 m.
Proof. destruct m; cbn; lia. Qed.

Lemma Zdigits2_le (m k : Z) : 0 <= k -> 0 <= m < 2 ^ k -> Zdigits2 m <= k.
Proof.
  intros Hk Hm. destruct (Z.eq_dec m 0) as [->|Hne]; [cbn; lia|].
  pose proof (Zdigits2_bounds m ltac:(lia)) as Hb.
  pose proof (Zdigits2_pos m ltac:(lia)).
  assert (2 ^ (Zdigits2 m - 1) < 2 ^ k) by lia.
  apply pow2_lt_inv in H0; lia.
Qed.

Lemma Zdigits2_ge (m k : Z) : 2 ^ (k - 1) <= m -> 0 < m -> k <= Zdigits2 m.
Proof.
  intros Hm Hpos.
  pose proof (Zdigits2_bounds m Hpos) as Hb.
  pose proof (Zdigits2_pos m Hpos).
  destruct (Z.le_gt_cases k 1) as [|Hk]; [lia|].
  assert (2 ^ (k - 1) < 2 ^ Zdigits2 m) by lia.
  apply pow2_lt_inv in H0; lia.
Qed.

Lemma Zdigits2_mono (m m' : Z) : 0 <= m <= m' -> Zdigits2 m <= Zdigits2 m'.
Proof.
  intros Hm. destruct (Z.eq_dec m 0) as [->|Hne].
  - apply Zdigits2_nonneg.
  - pose proof (Zdigits2_bounds m ltac:(lia)).
    apply Zdigits2_ge; lia.
Qed.

(** *** Bounds of the rounded quotient *)

Lemma round_half_even_int (k den : Z) :
  0 < den -> round_half_even (k * den) den = k.
Proof.
  intros Hd. unfold round_half_even.
  rewrite Z.div_mul, Z.mod_mul by lia. change (2 * 0) with 0.
  destruct (Z.compare_spec 0 den); [lia|reflexivity|lia].
Qed.

Lemma round_half_even_le (num den b : Z) :
  0 < den -> 0 <= num <= b * den -> round_half_even num den <= b.
Proof.
  intros Hd Hn. rewrite <- (round_half_even_int b den Hd).
  apply round_half_even_mono; lia.
Qed.

Lemma round_half_even_ge (num den a : Z) :
  0 < den -> 0 <= a * den <= num -> a <= round_half_even num den.
Proof.
  intros Hd Hn. rewrite <- (round_half_even_int a den Hd).
  apply round_half_even_mono; lia.
Qed.

(** *** The rounding of a positive quantity, in closed form *)

Lemma fexp_spec (k : Z) : fexp prec emax k = Z.max (k - 53) (-1074).
Proof. reflexivity. Qed.

Lemma target_ge_emin num den e : -1074 <= target num den e.
Proof. unfold target. rewrite fexp_spec. lia. Qed.

Lemma scaled_bounds (num den e : Z) :
  0 <= num -> 0 < den -> e <= target num den e ->
  0 <= scaled num den e <= 2 ^ prec /\
  (-1074 < target num den e -> 2 ^ (prec - 1) <= scaled num den e).
Proof.
  intros Hn Hd Hpre. unfold scaled.
  set (E := target num den e) in *.
  assert (HE : E = Z.max (Zdigits2 (num / den) + e - 53) (-1074))
    by (subst E; unfold target; now rewrite fexp_spec).
  set (m := num / den) in *. set (dg := Zdigits2 m) in *.
  pose proof (Z.div_pos num den Hn Hd) as Hm. fold m in Hm.
  pose proof (Z.div_mod num den ltac:(lia)) as Hdm.
  pose proof (Z.mod_pos_bound num den Hd) as Hr. fold m in Hdm.
  pose proof (Zdigits2_nonneg m) as Hdg. fold dg in Hdg.
  set (n := E - e). assert (Hn0 : 0 <= n) by (subst n; lia).
  pose proof (pow2_pos n Hn0) as Hpn.
  assert (Hden1 : 0 < den * 2 ^ n) by nia.
  assert (Hm1 : m + 1 <= 2 ^ dg).
  { destruct (Z.eq_dec m 0) as [E0|E0].
    - rewrite E0. pose proof (pow2_pos dg Hdg). lia.
    - pose proof (Zdigits2_bounds m ltac:(lia)). fold dg in H. lia. }
  split; [split|].
  - now apply round_half_even_nonneg.
  - apply round_half_even_le; [assumption|]. split; [assumption|].
    assert (2 ^ dg <= 2 ^ prec * 2 ^ n).
    { rewrite <- pow2_add by (unfold prec; lia).
      apply pow2_le. unfold prec. lia. }
    nia.
  - intros Hun.
    assert (Hdgn : dg = n + 53) by (subst n; lia).
    assert (Hmpos : 0 < m).
    { destruct (Z.eq_dec m 0) as [E0|E0]; [|lia].
      subst dg. rewrite E0 in Hdgn. cbn in Hdgn. lia. }
    pose proof (Zdigits2_bounds m Hmpos) as Hb. fold dg in Hb.
    apply round_half_even_ge; [assumption|].
    assert (2 ^ (dg - 1) = 2 ^ (prec - 1) * 2 ^ n).
    { rewrite <- pow2_add by (unfold prec; lia).
      f_equal. unfold prec. lia. }
    pose proof (pow2_pos (prec - 1) ltac:(unfold prec; lia)).
    nia.
Qed.

Lemma round_formula_pack (s : bool) (num den e : Z) :
  0 <= num -> 0 < den -> e <= target num den e ->
  round_formula s num den e
  = pack s (scaled num den e) (target num den e).
Proof.
  intros Hn Hd Hpre.
  destruct (scaled_bounds num den e Hn Hd Hpre) as [[Hlo Hhi] _].
  pose proof (target_ge_emin num den e) as HEmin.
  unfold round_formula, pack, scaled in *.
  fold (target num den e).
  remember (target num den e) as E eqn:HE. clear HE.
  replace (if 0 <? E - e then den * 2 ^ (E - e) else den)
    with (den * 2 ^ (E - e)).
  2:{ destruct (Z.ltb_spec 0 (E - e)); [reflexivity|].
      replace (E - e) with 0 by lia. cbn. lia. }
  replace (if 0 <? E - e then e + (E - e) else e) with E.
  2:{ destruct (Z.ltb_spec 0 (E - e)); lia. }
  remember (round_half_even num (den * 2 ^ (E - e))) as m2 eqn:Hm2. clear Hm2.
  rewrite fexp_spec.
  destruct (Z.eqb_spec m2 0) as [E0|E0].
  - rewrite E0. cbn [Zdigits2].
    destruct (Z.ltb_spec 0 (Z.max (0 + E - 53) (-1074) - E)); [lia|reflexivity].
  - destruct (Z.leb_spec (2 ^ prec) m2) as [Hc|Hc].
    + assert (Hm2 : m2 = 2 ^ prec) by lia.
      rewrite Hm2. change (Zdigits2 (2 ^ prec)) with 54.
      replace (Z.max (54 + E - 53) (-1074) - E) with 1 by lia.
      cbn [Z.ltb Z.compare]. change (2 ^ prec / 2 ^ 1) with (2 ^ (prec - 1)).
      reflexivity.
    + assert (Hdg : Zdigits2 m2 <= 53)
        by (apply Zdigits2_le; [lia|split; [lia|exact Hc]]).
      destruct (Z.ltb_spec 0 (Z.max (Zdigits2 m2 + E - 53) (-1074) - E));
        [lia|].
      destruct m2 as [|p|p]; try lia. reflexivity.
Qed.

(** *** Order of packed results *)

Lemma pow2_prec : 2 ^ prec = 9007199254740992.
Proof. reflexivity. Qed.

Lemma pow2_prec1 : 2 ^ (prec - 1) = 4503599627370496.
Proof. reflexivity. Qed.

Lemma pack_mono_m (a b E : Z) :
  0 <= a <= b -> b <= 2 ^ prec ->
  SFleb (pack false a E) (pack false b E) = true.
Proof.
  intros Hab Hb. rewrite pow2_prec in Hb. rewrite SFleb_key. unfold pack.
  rewrite pow2_prec, pow2_prec1. unfold emax, prec.
  destruct (Z.eqb_spec a 0), (Z.eqb_spec b 0),
    (Z.leb_spec 9007199254740992 a), (Z.leb_spec 9007199254740992 b),
    (Z.leb_spec (E + 1) (1024 - 53)), (Z.leb_spec E (1024 - 53));
    try lia; cbn [key key_leb]; try reflexivity.
  all: repeat match goal with
       | |- context [Z.pos (Z.to_pos ?x)] => rewrite (Z2Pos.id x) by lia
       end.
  all: apply negb_true_iff, not_true_iff_false; rewrite lex_ltb_spec; lia.
Qed.

Lemma pack_mono_E (a b E E' : Z) :
  E < E' -> 0 <= a <= 2 ^ prec -> 2 ^ (prec - 1) <= b <= 2 ^ prec ->
  SFleb (pack false a E) (pack false b E') = true.
Proof.
  intros HE Ha Hb. rewrite pow2_prec in *. rewrite pow2_prec1 in *.
  rewrite SFleb_key. unfold pack.
  rewrite pow2_prec, pow2_prec1. unfold emax, prec.
  destruct (Z.eqb_spec a 0), (Z.eqb_spec b 0),
    (Z.leb_spec 9007199254740992 a), (Z.leb_spec 9007199254740992 b),
    (Z.leb_spec (E + 1) (1024 - 53)), (Z.leb_spec E (1024 - 53)),
    (Z.leb_spec (E' + 1) (1024 - 53)), (Z.leb_spec E' (1024 - 53));
    try lia; cbn [key key_leb]; try reflexivity.
  all: repeat match goal with
       | |- context [Z.pos (Z.to_pos ?x)] => rewrite (Z2Pos.id x) by lia
       end.
  all: apply negb_true_iff, not_true_iff_false; rewrite lex_ltb_spec; lia.
Qed.

(** *** The rounding does not depend on the representation of the quantity *)

Lemma refine_div (num den k K : Z) :
  0 <= num -> 0 < den -> 0 <= k -> 0 < K ->
  let m := num / den in
  let m' := (num * K * 2 ^ k) / (den * K) in
  m * 2 ^ k <= m' < (m + 1) * 2 ^ k.
Proof.
  intros Hn Hd Hk HK m m'. subst m m'.
  pose proof (pow2_pos k Hk) as Hp.
  replace (num * K * 2 ^ k) with (K * (num * 2 ^ k)) by lia.
  replace (den * K) with (K * den) by lia.
  rewrite Z.div_mul_cancel_l by lia.
  pose proof (Z.div_mod num den ltac:(lia)) as Hdm.
  pose proof (Z.mod_pos_bound num den Hd) as Hr.
  split.
  - apply Z.div_le_lower_bound; [assumption|]. nia.
  - apply Z.div_lt_upper_bound; [assumption|]. nia.
Qed.

Lemma target_refine (num den e k K : Z) :
  0 <= num -> 0 < den -> 0 <= k -> 0 < K -> e <= target num den e ->
  target (num * K * 2 ^ k) (den * K) (e - k) = target num den e.
Proof.
  intros Hn Hd Hk HK Hpre.
  pose proof (refine_div num den k K Hn Hd Hk HK) as Hm'. cbn zeta in Hm'.
  unfold target in *. rewrite !fexp_spec in *.
  set (m := num / den) in *. set (m' := num * K * 2 ^ k / (den * K)) in *.
  pose proof (Z.div_pos num den Hn Hd) as Hm. fold m in Hm.
  pose proof (pow2_pos k Hk) as Hp.
  destruct (Z.eq_dec m 0) as [E0|E0].
  - rewrite E0 in *. cbn [Zdigits2] in *.
    assert (Zdigits2 m' <= k) by (apply Zdigits2_le; lia).
    pose proof (Zdigits2_nonneg m'). lia.
  - pose proof (Zdigits2_bounds m ltac:(lia)) as Hb.
    pose proof (Zdigits2_pos m ltac:(lia)) as Hdg.
    set (dg := Zdigits2 m) in *.
    assert (Hpk : 2 ^ (dg + k) = 2 ^ dg * 2 ^ k) by (apply pow2_add; lia).
    assert (Hpk1 : 2 ^ (dg + k - 1) = 2 ^ (dg - 1) * 2 ^ k).
    { replace (dg + k - 1) with (dg - 1 + k) by lia. apply pow2_add; lia. }
    assert (Zdigits2 m' = dg + k).
    { apply Z.le_antisymm.
      - apply Zdigits2_le; [lia|]. split; [nia|]. nia.
      - apply Zdigits2_ge; nia. }
    lia.
Qed.

Lemma scaled_refine (num den e k K : Z) :
  0 <= num -> 0 < den -> 0 <= k -> 0 < K -> e <= target num den e ->
  scaled (num * K * 2 ^ k) (den * K) (e - k) = scaled num den e.
Proof.
  intros Hn Hd Hk HK Hpre. unfold scaled.
  rewrite target_refine by assumption.
  set (E := target num den e) in *.
  pose proof (pow2_pos k Hk) as Hp.
  replace (E - (e - k)) with (E - e + k) by lia.
  rewrite pow2_add by lia.
  replace (num * K * 2 ^ k) with ((K * 2 ^ k) * num) by lia.
  replace (den * K * (2 ^ (E - e) * 2 ^ k))
    with ((K * 2 ^ k) * (den * 2 ^ (E - e))) by lia.
  pose proof (pow2_pos (E - e) ltac:(lia)).
  apply round_half_even_scale; nia.
Qed.

Lemma pack_mono_common (num num' den e : Z) :
  0 <= num <= num' -> 0 < den ->
  e <= target num den e -> e <= target num' den e ->
  SFleb (pack false (scaled num den e) (target num den e))
        (pack false (scaled num' den e) (target num' den e)) = true.
Proof.
  intros Hn Hd Hpre Hpre'.
  destruct (scaled_bounds num den e ltac:(lia) Hd Hpre) as [[Hlo Hhi] _].
  destruct (scaled_bounds num' den e ltac:(lia) Hd Hpre') as [[Hlo' Hhi'] Hnorm'].
  assert (HE : target num den e <= target num' den e).
  { unfold target. rewrite !fexp_spec.
    assert (Zdigits2 (num / den) <= Zdigits2 (num' / den)).
    { apply Zdigits2_mono. split; [apply Z.div_pos; lia|].
      apply Z.div_le_mono; lia. }
    lia. }
  destruct (Z.eq_dec (target num den e) (target num' den e)) as [Heq|Hne].
  - assert (scaled num den e <= scaled num' den e).
    { unfold scaled. rewrite Heq. apply round_half_even_mono; [|lia].
      pose proof (pow2_pos (target num' den e - e) ltac:(lia)). nia. }
    rewrite Heq. apply pack_mono_m; lia.
  - apply pack_mono_E; [lia|lia|]. split; [|assumption].
    apply Hnorm'. pose proof (target_ge_emin num den e). lia.
Qed.

Lemma refine_to (num den e c K : Z) :
  0 <= num -> 0 < den -> c <= e -> 0 < K -> e <= target num den e ->
  target (num * K * 2 ^ (e - c)) (den * K) c = target num den e /\
  scaled (num * K * 2 ^ (e - c)) (den * K) c = scaled num den e.
Proof.
  intros Hn Hd Hc HK Hpre.
  pose proof (target_refine num den e (e - c) K Hn Hd ltac:(lia) HK Hpre) as Ht.
  pose proof (scaled_refine num den e (e - c) K Hn Hd ltac:(lia) HK Hpre) as Hs.
  replace (e - (e - c)) with c in Ht, Hs by lia. now split.
Qed.

Lemma pack_mono (num den e num' den' e' : Z) :
  0 <= num -> 0 < den -> e <= target num den e ->
  0 <= num' -> 0 < den' -> e' <= target num' den' e' ->
  le_value num den e num' den' e' ->
  SFleb (pack false (scaled num den e) (target num den e))
        (pack false (scaled num' den' e') (target num' den' e')) = true.
Proof.
  intros Hn Hd Hpre Hn' Hd' Hpre' Hle. unfold le_value in Hle.
  set (c := Z.min e e') in *.
  destruct (refine_to num den e c den' Hn Hd ltac:(lia) Hd' Hpre) as [Ht Hs].
  destruct (refine_to num' den' e' c den Hn' Hd' ltac:(lia) Hd Hpre')
    as [Ht' Hs'].
  replace (den' * den) with (den * den') in Ht', Hs' by lia.
  rewrite <- Ht, <- Hs, <- Ht', <- Hs'.
  pose proof (pow2_pos (e - c) ltac:(lia)).
  pose proof (pow2_pos (e' - c) ltac:(lia)).
  apply pack_mono_common; rewrite ?Ht, ?Ht'; try lia; nia.
Qed.

(** *** The operations as roundings of exact quantities *)

Lemma new_location_frac (num den : Z) :
  0 < den -> new_location den (num mod den) = frac_loc num den.
Proof.
  intros Hd. pose proof (Z.mod_pos_bound num den Hd) as Hr.
  unfold new_location, new_location_even, new_location_odd, frac_loc.
  destruct (Z.even den) eqn:Hev; [reflexivity|].
  destruct (Z.eqb_spec (num mod den) 0); [reflexivity|]. f_equal.
  assert (Hodd : Z.odd den = true) by (rewrite <- Z.negb_even, Hev; reflexivity).
  apply Z.odd_spec in Hodd as [h Hh].
  destruct (Z.compare_spec (2 * (num mod den) + 1) den),
    (Z.compare_spec (2 * (num mod den)) den); try reflexivity; lia.
Qed.

Lemma div_exp_le mx ex my ey : div_exp mx ex my ey <= ex - ey.
Proof. unfold div_exp. lia. Qed.

Lemma SFdiv_core_frac mx ex my ey :
  SFdiv_core_binary prec emax (Zpos mx) ex (Zpos my) ey =
  (div_num mx ex my ey / Zpos my, div_exp mx ex my ey,
   frac_loc (div_num mx ex my ey) (Zpos my)).
Proof.
  unfold SFdiv_core_binary. fold (div_exp mx ex my ey).
  pose proof (div_exp_le mx ex my ey) as Hle.
  set (e' := div_exp mx ex my ey) in *.
  assert (Hm : match ex - ey - e' with
               | Z.pos _ => Z.shiftl (Z.pos mx) (ex - ey - e')
               | 0 => Z.pos mx
               | Z.neg _ => 0
               end = div_num mx ex my ey).
  { unfold div_num. fold e'. destruct (ex - ey - e') as [|p|p] eqn:Hs; try lia.
    rewrite Z.shiftl_mul_pow2 by lia. reflexivity. }
  rewrite Hm. set (N := div_num mx ex my ey).
  rewrite <- (new_location_frac N (Zpos my)) by lia.
  unfold Z.div, Z.modulo. destruct (Z.div_eucl N (Z.pos my)) as [q r].
  reflexivity.
Qed.

Lemma div_precondition mx ex my ey :
  div_exp mx ex my ey
  <= target (div_num mx ex my ey) (Zpos my) (div_exp mx ex my ey).
Proof.
  unfold target. rewrite fexp_spec.
  pose proof (div_exp_le mx ex my ey) as Hle.
  assert (He' : div_exp mx ex my ey
                <= Z.max (Zdigits2 (Zpos mx) + ex - (Zdigits2 (Zpos my) + ey) - 53)
                         (-1074))
    by (unfold div_exp; rewrite fexp_spec; lia).
  unfold div_num. set (e' := div_exp mx ex my ey) in *.
  set (s := ex - ey - e'). assert (Hs : 0 <= s) by (subst s; lia).
  pose proof (pow2_pos s Hs) as Hps.
  pose proof (Zdigits2_bounds (Zpos mx) ltac:(lia)) as Hbx.
  pose proof (Zdigits2_bounds (Zpos my) ltac:(lia)) as Hby.
  pose proof (Zdigits2_pos (Zpos mx) ltac:(lia)) as Hdx.
  pose proof (Zdigits2_pos (Zpos my) ltac:(lia)) as Hdy.
  set (d1 := Zdigits2 (Zpos mx)) in *. set (d2 := Zdigits2 (Zpos my)) in *.
  set (q := Z.pos mx * 2 ^ s / Z.pos my).
  pose proof (Zdigits2_nonneg q) as Hq.
  destruct (Z.le_gt_cases d2 (d1 - 1 + s)) as [Hbig|Hsmall].
  - assert (Hql : 2 ^ (d1 + s - d2 - 1) <= q).
    { subst q. apply Z.div_le_lower_bound; [lia|].
      assert (2 ^ (d1 - 1 + s) = 2 ^ d2 * 2 ^ (d1 + s - d2 - 1)).
      { rewrite <- pow2_add by lia. f_equal. lia. }
      assert (2 ^ (d1 - 1 + s) = 2 ^ (d1 - 1) * 2 ^ s)
        by (apply pow2_add; lia).
      pose proof (pow2_pos (d1 + s - d2 - 1) ltac:(lia)). nia. }
    assert (d1 + s - d2 <= Zdigits2 q).
    { apply Zdigits2_ge; [exact Hql|].
      pose proof (pow2_pos (d1 + s - d2 - 1) ltac:(lia)). lia. }
    lia.
  - lia.
Qed.

Lemma div_pack sx mx ex sy my ey :
  SFdiv prec emax (S754_finite sx mx ex) (S754_finite sy my ey) =
  pack (xorb sx sy)
    (scaled (div_num mx ex my ey) (Zpos my) (div_exp mx ex my ey))
    (target (div_num mx ex my ey) (Zpos my) (div_exp mx ex my ey)).
Proof.
  unfold SFdiv. rewrite SFdiv_core_frac.
  assert (0 <= div_num mx ex my ey).
  { unfold div_num. pose proof (div_exp_le mx ex my ey).
    pose proof (pow2_pos (ex - ey - div_exp mx ex my ey) ltac:(lia)). nia. }
  rewrite binary_round_aux_formula by lia.
  apply round_formula_pack; [assumption|lia|apply div_precondition].
Qed.

Lemma frac_loc_exact (m : Z) : frac_loc m 1 = loc_Exact.
Proof. unfold frac_loc. now rewrite Z.mod_1_r. Qed.

Lemma exact_pack (s : bool) (m : positive) (e : Z) :
  e <= target (Zpos m) 1 e ->
  binary_round_aux prec emax s (Zpos m) e loc_Exact
  = pack s (scaled (Zpos m) 1 e) (target (Zpos m) 1 e).
Proof.
  intros Hpre.
  rewrite <- (Z.div_1_r (Zpos m)) at 1.
  rewrite <- (frac_loc_exact (Zpos m)).
  rewrite binary_round_aux_formula by lia.
  now apply round_formula_pack.
Qed.

Lemma target_exact (m e : Z) : target m 1 e = fexp prec emax (Zdigits2 m + e).
Proof. unfold target. now rewrite Z.div_1_r. Qed.

(** A valid finite float is the packing of its own mantissa. *)
Lemma valid_pack s m e :
  valid (S754_finite s m e) = true ->
  target (Zpos m) 1 e = e /\ scaled (Zpos m) 1 e = Zpos m /\
  S754_finite s m e = pack s (Zpos m) e.
Proof.
  intros [Hc He]%valid_finite_inv.
  assert (Ht : target (Zpos m) 1 e = e) by (rewrite target_exact; exact Hc).
  assert (Hs : scaled (Zpos m) 1 e = Zpos m).
  { unfold scaled. rewrite Ht, Z.sub_diag. change (1 * 2 ^ 0) with 1.
    rewrite <- (Z.mul_1_r (Zpos m)) at 1. apply round_half_even_int. lia. }
  split; [exact Ht|]. split; [exact Hs|].
  pose proof (digits2_pos_bounds m) as Hb.
  rewrite fexp_spec in Hc.
  assert (Hm : Zpos m < 2 ^ prec).
  { assert (Zpos (digits2_pos m) <= 53) by lia.
    assert (2 ^ Zpos (digits2_pos m) <= 2 ^ prec)
      by (apply pow2_le; unfold prec; lia).
    lia. }
  unfold pack.
  destruct (Z.eqb_spec (Zpos m) 0); [lia|].
  destruct (Z.leb_spec (2 ^ prec) (Zpos m)); [lia|].
  rewrite (proj2 (Z.leb_le _ _) He). reflexivity.
Qed.

Lemma mul_precondition mx ex my ey sx sy :
  valid (S754_finite sx mx ex) = true -> valid (S754_finite sy my ey) = true ->
  ex + ey <= target (Zpos (mx * my)) 1 (ex + ey).
Proof.
  intros [Hcx _]%valid_finite_inv [Hcy _]%valid_finite_inv.
  rewrite target_exact. rewrite fexp_spec in *. cbn [Zdigits2].
  pose proof (digits2_pos_bounds mx) as Hbx.
  pose proof (digits2_pos_bounds my) as Hby.
  set (dx := Zpos (digits2_pos mx)) in *. set (dy := Zpos (digits2_pos my)) in *.
  assert (Hdx : 1 <= dx) by (subst dx; lia).
  assert (Hdy : 1 <= dy) by (subst dy; lia).
  assert (Hd : dx + dy - 1 <= Zdigits2 (Zpos (mx * my))).
  { apply Zdigits2_ge; [|lia].
    replace (dx + dy - 1 - 1) with ((dx - 1) + (dy - 1)) by lia.
    rewrite pow2_add by lia. rewrite Pos2Z.inj_mul.
    pose proof (pow2_pos (dx - 1) ltac:(lia)).
    pose proof (pow2_pos (dy - 1) ltac:(lia)). nia. }
  cbn [Zdigits2] in Hd. lia.
Qed.

Lemma mul_pack sx mx ex sy my ey :
  valid (S754_finite sx mx ex) = true -> valid (S754_finite sy my ey) = true ->
  SFmul prec emax (S754_finite sx mx ex) (S754_finite sy my ey) =
  pack (xorb sx sy) (scaled (Zpos (mx * my)) 1 (ex + ey))
       (target (Zpos (mx * my)) 1 (ex + ey)).
Proof.
  intros Hx Hy. unfold SFmul. apply exact_pack.
  now apply (mul_precondition mx ex my ey sx sy).
Qed.

Lemma iter_xO_value (m d : positive) :
  Zpos (Pos.iter xO m d) = Zpos m * 2 ^ Zpos d.
Proof.
  induction d as [|d IH] using Pos.peano_ind.
  - cbn. lia.
  - rewrite Pos.iter_succ, Pos2Z.inj_xO, IH, Pos2Z.inj_succ,
      Z.pow_succ_r by lia. lia.
Qed.

Lemma shl_align_spec (m : positive) (e e' : Z) :
  Zpos (fst (shl_align m e e')) = Zpos m * 2 ^ (e - Z.min e e') /\
  snd (shl_align m e e') = Z.min e e'.
Proof.
  unfold shl_align. destruct (e' - e) as [|d|d] eqn:Hd; cbn [fst snd].
  - replace (Z.min e e') with e by lia. rewrite Z.sub_diag. cbn. lia.
  - replace (Z.min e e') with e by lia. rewrite Z.sub_diag. cbn. lia.
  - replace (Z.min e e') with e' by lia. rewrite iter_xO_value.
    split; [|reflexivity]. f_equal. f_equal. lia.
Qed.

Lemma round_precondition (m : positive) (e : Z) :
  round_exp m e <= target (round_num m e) 1 (round_exp m e).
Proof.
  rewrite target_exact. unfold round_num, round_exp.
  set (E := fexp prec emax (Z.pos (digits2_pos m) + e)).
  destruct (Z.le_gt_cases e E) as [Hle|Hgt].
  - replace (Z.min e E) with e by lia. rewrite Z.sub_diag, Z.mul_1_r.
    cbn [Zdigits2]. fold E. lia.
  - replace (Z.min e E) with E by lia.
    pose proof (pow2_pos (e - E) ltac:(lia)) as Hp.
    pose proof (digits2_pos_bounds m) as Hb.
    set (d := Zpos (digits2_pos m)) in *.
    assert (Hd : Zdigits2 (Zpos m * 2 ^ (e - E)) = d + (e - E)).
    { assert (2 ^ (d + (e - E)) = 2 ^ d * 2 ^ (e - E))
        by (apply pow2_add; subst d; lia).
      assert (2 ^ (d + (e - E) - 1) = 2 ^ (d - 1) * 2 ^ (e - E)).
      { replace (d + (e - E) - 1) with (d - 1 + (e - E)) by lia.
        apply pow2_add; subst d; lia. }
      apply Z.le_antisymm.
      - apply Zdigits2_le; [subst d; lia|]. nia.
      - apply Zdigits2_ge; nia. }
    rewrite Hd. replace (d + (e - E) + E) with (d + e) by lia. fold E. lia.
Qed.

Lemma binary_round_pack (s : bool) (m : positive) (e : Z) :
  binary_round prec emax s m e =
  pack s (scaled (round_num m e) 1 (round_exp m e))
         (target (round_num m e) 1 (round_exp m e)).
Proof.
  unfold binary_round.
  destruct (shl_align_spec m e (fexp prec emax (Zpos (digits2_pos m) + e)))
    as [Hm He].
  destruct (shl_align m e (fexp prec emax (Zpos (digits2_pos m) + e)))
    as [mz ez]. cbn [fst snd] in Hm, He.
  fold (round_exp m e) in Hm, He. fold (round_num m e) in Hm.
  rewrite He. pose proof (round_precondition m e) as Hpre.
  rewrite <- Hm in *. now apply exact_pack.
Qed.

(** *** Non-negative floats and the quantities they round *)

Lemma pack_good (m2 E : Z) :
  0 <= m2 <= 2 ^ prec -> -1074 <= E ->
  (-1074 < E -> 2 ^ (prec - 1) <= m2) ->
  good (pack false m2 E).
Proof.
  intros Hm HE Hnorm. rewrite pow2_prec in Hm. rewrite pow2_prec1 in Hnorm.
  unfold pack. rewrite pow2_prec, pow2_prec1.
  destruct (Z.eqb_spec m2 0); [now split|].
  assert (Hcan : forall m e, 0 < m < 9007199254740992 -> -1074 <= e ->
            (-1074 < e -> 4503599627370496 <= m) ->
            fexp prec emax (Zdigits2 m + e) = e).
  { intros m e Hm' He' Hn'. rewrite fexp_spec.
    assert (Zdigits2 m <= 53) by (apply Zdigits2_le; [lia|]; change (2 ^ 53) with 9007199254740992; lia).
    destruct (Z.eq_dec e (-1074)) as [->|]; [lia|].
    assert (53 <= Zdigits2 m).
    { apply Zdigits2_ge; [|lia]. change (2 ^ (53 - 1)) with 4503599627370496.
      apply Hn'. lia. }
    lia. }
  destruct (Z.leb_spec 9007199254740992 m2).
  - destruct (Z.leb_spec (E + 1) (emax - prec)) as [Hov|Hov]; [|now split].
    split; [|reflexivity].
    unfold valid, valid_binary, bounded, canonical_mantissa.
    rewrite (proj2 (Z.leb_le _ _) Hov), andb_true_r. apply Z.eqb_eq.
    apply (Hcan 4503599627370496 (E + 1)); lia.
  - destruct (Z.leb_spec E (emax - prec)) as [Hov|Hov]; [|now split].
    split; [|reflexivity].
    unfold valid, valid_binary, bounded, canonical_mantissa.
    rewrite (proj2 (Z.leb_le _ _) Hov), andb_true_r. apply Z.eqb_eq.
    destruct m2 as [|p|p]; try lia. cbn [Z.to_pos].
    apply (Hcan (Zpos p) E); lia.
Qed.

Lemma rounds_good x num den e : rounds x num den e -> good x.
Proof.
  intros (Hn & Hd & Hpre & ->).
  destruct (scaled_bounds num den e Hn Hd Hpre) as [Hb Hnorm].
  apply pack_good; [exact Hb|apply target_ge_emin|exact Hnorm].
Qed.

Lemma rounds_mono x num den e x' num' den' e' :
  rounds x num den e -> rounds x' num' den' e' ->
  le_value num den e num' den' e' -> SFleb x x' = true.
Proof.
  intros (Hn & Hd & Hpre & ->) (Hn' & Hd' & Hpre' & ->) Hle.
  now apply pack_mono.
Qed.

Lemma finite_rounds m e :
  valid (S754_finite false m e) = true ->
  rounds (S754_finite false m e) (Zpos m) 1 e.
Proof.
  intros Hv. destruct (valid_pack false m e Hv) as (Ht & Hs & Hp).
  repeat split; try lia. now rewrite Hs, Ht.
Qed.

Lemma valid_mantissa s m e :
  valid (S754_finite s m e) = true ->
  -1074 <= e /\ Zpos m < 2 ^ prec /\ (-1074 < e -> 2 ^ (prec - 1) <= Zpos m).
Proof.
  intros [Hc _]%valid_finite_inv. rewrite fexp_spec in Hc.
  pose proof (digits2_pos_bounds m) as Hb.
  set (d := Zpos (digits2_pos m)) in *.
  split; [lia|]. split.
  - assert (2 ^ d <= 2 ^ prec) by (apply pow2_le; unfold prec; subst d; lia).
    lia.
  - intros He. assert (d = 53) by lia. rewrite H in Hb. exact (proj1 Hb).
Qed.

Lemma SFleb_le_value m e m' e' :
  valid (S754_finite false m e) = true ->
  valid (S754_finite false m' e') = true ->
  SFleb (S754_finite false m e) (S754_finite false m' e') = true ->
  le_value (Zpos m) 1 e (Zpos m') 1 e'.
Proof.
  intros (He & Hm & _)%valid_mantissa (He' & _ & Hn')%valid_mantissa.
  rewrite SFleb_key. cbn [key key_leb].
  rewrite negb_true_iff, <- not_true_iff_false, lex_ltb_spec.
  intros Hk. unfold le_value.
  rewrite pow2_prec in *. rewrite pow2_prec1 in *.
  destruct (Z.lt_trichotomy e e') as [Hlt|[Heq|Hgt]]; [| |lia].
  - replace (Z.min e e') with e by lia. rewrite Z.sub_diag.
    assert (2 ^ 1 <= 2 ^ (e' - e)) by (apply pow2_le; lia).
    change (2 ^ 1) with 2 in *. change (2 ^ 0) with 1. nia.
  - subst e'. replace (Z.min e e) with e by lia. rewrite Z.sub_diag.
    change (2 ^ 0) with 1. lia.
Qed.

Lemma good_cases x :
  good x ->
  (exists s, x = S754_zero s) \/
  (exists m e, x = S754_finite false m e) \/ x = S754_infinity false.
Proof.
  intros [_ Hn]. destruct x as [s|[]| |[] m e]; try discriminate; eauto.
Qed.

Lemma SFleb_zero_l s x : good x -> SFleb (S754_zero s) x = true.
Proof.
  intros Hg. destruct (good_cases x Hg) as [[s' ->]|[(m & e & ->)| ->]];
    reflexivity.
Qed.

Lemma SFleb_inf_r x : good x -> SFleb x (S754_infinity false) = true.
Proof.
  intros Hg. destruct (good_cases x Hg) as [[s' ->]|[(m & e & ->)| ->]];
    reflexivity.
Qed.


(** *** Monotonicity of the operations *)

Lemma le_shift (A B ea eb t t' : Z) :
  t <= ea -> t <= eb -> t' <= ea -> t' <= eb ->
  A * 2 ^ (ea - t) <= B * 2 ^ (eb - t) ->
  A * 2 ^ (ea - t') <= B * 2 ^ (eb - t').
Proof.
  intros Ha Hb Ha' Hb' Hle.
  set (u := Z.min t t').
  assert (H1 : 2 ^ (ea - u) = 2 ^ (ea - t) * 2 ^ (t - u))
    by (rewrite <- pow2_add by lia; f_equal; lia).
  assert (H2 : 2 ^ (eb - u) = 2 ^ (eb - t) * 2 ^ (t - u))
    by (rewrite <- pow2_add by lia; f_equal; lia).
  assert (H3 : 2 ^ (ea - u) = 2 ^ (ea - t') * 2 ^ (t' - u))
    by (rewrite <- pow2_add by lia; f_equal; lia).
  assert (H4 : 2 ^ (eb - u) = 2 ^ (eb - t') * 2 ^ (t' - u))
    by (rewrite <- pow2_add by lia; f_equal; lia).
  pose proof (pow2_pos (t - u) ltac:(lia)).
  pose proof (pow2_pos (t' - u) ltac:(lia)).
  assert (Hu : A * 2 ^ (ea - u) <= B * 2 ^ (eb - u)) by (rewrite H1, H2; nia).
  rewrite H3, H4 in Hu. nia.
Qed.

Lemma div_rounds mx ex my ey :
  rounds (SFdiv prec emax (S754_finite false mx ex) (S754_finite false my ey))
    (div_num mx ex my ey) (Zpos my) (div_exp mx ex my ey).
Proof.
  pose proof (div_exp_le mx ex my ey).
  pose proof (pow2_pos (ex - ey - div_exp mx ex my ey) ltac:(lia)).
  split; [unfold div_num; nia|]. split; [lia|].
  split; [apply div_precondition|]. apply (div_pack false mx ex false my ey).
Qed.

Lemma div_le_value mx ex mx' ex' my ey :
  le_value (Zpos mx) 1 ex (Zpos mx') 1 ex' ->
  le_value (div_num mx ex my ey) (Zpos my) (div_exp mx ex my ey)
           (div_num mx' ex' my ey) (Zpos my) (div_exp mx' ex' my ey).
Proof.
  unfold le_value. intros Hle.
  pose proof (div_exp_le mx ex my ey) as H1.
  pose proof (div_exp_le mx' ex' my ey) as H2.
  set (e1 := div_exp mx ex my ey) in *. set (e1' := div_exp mx' ex' my ey) in *.
  set (c := Z.min e1 e1').
  unfold div_num. fold e1 e1'.
  assert (Ha : Zpos mx * 2 ^ (ex - ey - e1) * Zpos my * 2 ^ (e1 - c)
               = Zpos my * (Zpos mx * 2 ^ (ex - (ey + c)))).
  { replace (ex - (ey + c)) with ((ex - ey - e1) + (e1 - c)) by lia.
    rewrite pow2_add by lia. lia. }
  assert (Hb : Zpos mx' * 2 ^ (ex' - ey - e1') * Zpos my * 2 ^ (e1' - c)
               = Zpos my * (Zpos mx' * 2 ^ (ex' - (ey + c)))).
  { replace (ex' - (ey + c)) with ((ex' - ey - e1') + (e1' - c)) by lia.
    rewrite pow2_add by lia. lia. }
  rewrite Ha, Hb. apply Z.mul_le_mono_nonneg_l; [lia|].
  apply (le_shift _ _ ex ex' (Z.min ex ex')); try lia.
Qed.

Lemma mul_rounds mx ex my ey :
  valid (S754_finite false mx ex) = true ->
  valid (S754_finite false my ey) = true ->
  rounds (SFmul prec emax (S754_finite false mx ex) (S754_finite false my ey))
    (Zpos (mx * my)) 1 (ex + ey).
Proof.
  intros Hx Hy. split; [lia|]. split; [lia|].
  split; [now apply (mul_precondition mx ex my ey false false)|].
  now apply (mul_pack false mx ex false my ey).
Qed.

Lemma mul_le_value mx ex mx' ex' (my : positive) ey :
  le_value (Zpos mx) 1 ex (Zpos mx') 1 ex' ->
  le_value (Zpos (mx * my)) 1 (ex + ey) (Zpos (mx' * my)) 1 (ex' + ey).
Proof.
  unfold le_value. intros Hle.
  replace (Z.min (ex + ey) (ex' + ey)) with (Z.min ex ex' + ey) by lia.
  replace (ex + ey - (Z.min ex ex' + ey)) with (ex - Z.min ex ex') by lia.
  replace (ex' + ey - (Z.min ex ex' + ey)) with (ex' - Z.min ex ex') by lia.
  rewrite !Pos2Z.inj_mul. nia.
Qed.



Lemma round_value (m : positive) (e c : Z) :
  c <= round_exp m e ->
  round_num m e * 2 ^ (round_exp m e - c) = Zpos m * 2 ^ (e - c).
Proof.
  intros Hc. unfold round_num.
  assert (round_exp m e <= e) by (unfold round_exp; lia).
  replace (e - c) with ((e - round_exp m e) + (round_exp m e - c)) by lia.
  rewrite pow2_add by lia. lia.
Qed.





(** *** The operations on non-negative floats *)

Ltac good_split H :=
  let s := fresh "s" in let m := fresh "m" in let e := fresh "e" in
  destruct (good_cases _ H) as [[s ->]|[(m & e & ->)| ->]].

Lemma good_valid m e : good (S754_finite false m e) -> valid (S754_finite false m e) = true.
Proof. now intros [Hv _]. Qed.

Lemma good_zero s : good (S754_zero s).
Proof. now split. Qed.

Lemma good_inf : good (S754_infinity false).
Proof. now split. Qed.

Lemma SFleb_fin_zero m e s :
  SFleb (S754_finite false m e) (S754_zero s) = true -> False.
Proof. discriminate. Qed.

Lemma SFleb_inf_zero s :
  SFleb (S754_infinity false) (S754_zero s) = true -> False.
Proof. discriminate. Qed.

Lemma SFleb_inf_fin m e :
  SFleb (S754_infinity false) (S754_finite false m e) = true -> False.
Proof. discriminate. Qed.





Lemma div_good x my ey :
  good x -> good (SFdiv prec emax x (S754_finite false my ey)).
Proof.
  intros Hx. good_split Hx; [apply good_zero| |apply good_inf].
  exact (rounds_good _ _ _ _ (div_rounds m e my ey)).
Qed.

Lemma div_mono x x' my ey :
  good x -> good x' -> SFleb x x' = true ->
  SFleb (SFdiv prec emax x (S754_finite false my ey))
        (SFdiv prec emax x' (S754_finite false my ey)) = true.
Proof.
  intros Hx Hx' Hle.
  pose proof (div_good x my ey Hx) as Hg.
  pose proof (div_good x' my ey Hx') as Hg'.
  good_split Hx; good_split Hx';
    try (now apply SFleb_fin_zero in Hle);
    try (now apply SFleb_inf_zero in Hle);
    try (now apply SFleb_inf_fin in Hle);
    try (apply SFleb_zero_l; exact Hg');
    try (apply SFleb_inf_r; exact Hg).
  apply (rounds_mono _ _ _ _ _ _ _ _
           (div_rounds m e my ey) (div_rounds m0 e0 my ey)).
  apply div_le_value, SFleb_le_value;
    [exact (good_valid _ _ Hx) | exact (good_valid _ _ Hx') | exact Hle].
Qed.

Lemma mul_good x my ey :
  good x -> valid (S754_finite false my ey) = true ->
  good (SFmul prec emax x (S754_finite false my ey)).
Proof.
  intros Hx Hy. good_split Hx; [apply good_zero| |apply good_inf].
  exact (rounds_good _ _ _ _ (mul_rounds m e my ey (good_valid _ _ Hx) Hy)).
Qed.

Lemma mul_mono x x' my ey :
  good x -> good x' -> valid (S754_finite false my ey) = true ->
  SFleb x x' = true ->
  SFleb (SFmul prec emax x (S754_finite false my ey))
        (SFmul prec emax x' (S754_finite false my ey)) = true.
Proof.
  intros Hx Hx' Hy Hle.
  pose proof (mul_good x my ey Hx Hy) as Hg.
  pose proof (mul_good x' my ey Hx' Hy) as Hg'.
  good_split Hx; good_split Hx';
    try (now apply SFleb_fin_zero in Hle);
    try (now apply SFleb_inf_zero in Hle);
    try (now apply SFleb_inf_fin in Hle);
    try (apply SFleb_zero_l; exact Hg');
    try (apply SFleb_inf_r; exact Hg).
  apply (rounds_mono _ _ _ _ _ _ _ _
           (mul_rounds m e my ey (good_valid _ _ Hx) Hy)
           (mul_rounds m0 e0 my ey (good_valid _ _ Hx') Hy)).
  apply mul_le_value, SFleb_le_value;
    [exact (good_valid _ _ Hx) | exact (good_valid _ _ Hx') | exact Hle].
Qed.

(** *** Conversions of non-negative ints *)

Lemma nearest_rounds (p : positive) :
  rounds (nearest (Zpos p)) (round_num p 0) 1 (round_exp p 0).
Proof.
  assert (Hr : round_exp p 0 <= 0) by (unfold round_exp; lia).
  pose proof (pow2_pos (0 - round_exp p 0) ltac:(lia)).
  split; [unfold round_num; nia|]. split; [lia|].
  split; [apply round_precondition|].
  unfold nearest. cbn [binary_normalize]. apply binary_round_pack.
Qed.

Lemma nearest_good (n : Z) : 0 <= n -> good (nearest n).
Proof.
  intros Hn. destruct n as [|p|p]; [apply good_zero| |lia].
  exact (rounds_good _ _ _ _ (nearest_rounds p)).
Qed.

Lemma nearest_mono (n n' : Z) :
  0 <= n <= n' -> SFleb (nearest n) (nearest n') = true.
Proof.
  intros Hn. destruct n as [|p|p]; [|destruct n' as [|p'|p']|]; try lia.
  - apply SFleb_zero_l, nearest_good. lia.
  - apply (rounds_mono _ _ _ _ _ _ _ _ (nearest_rounds p) (nearest_rounds p')).
    unfold le_value. rewrite !Z.mul_1_r.
    set (c := Z.min (round_exp p 0) (round_exp p' 0)).
    rewrite (round_value p 0 c), (round_value p' 0 c) by lia.
    assert (c <= 0) by (subst c; unfold round_exp; lia).
    pose proof (pow2_pos (0 - c) ltac:(lia)). nia.
Qed.

Lemma ratio_good (n d : Z) : 0 <= n -> 0 < d -> good (ratio n d).
Proof.
  intros Hn Hd. destruct d as [|q|q]; try lia.
  destruct n as [|p|p]; [apply good_zero| |lia].
  exact (rounds_good _ _ _ _ (div_rounds p 0 q 0)).
Qed.

Lemma ratio_mono (n n' d : Z) :
  0 <= n <= n' -> 0 < d -> SFleb (ratio n d) (ratio n' d) = true.
Proof.
  intros Hn Hd. destruct d as [|q|q]; try lia.
  destruct n as [|p|p]; [|destruct n' as [|p'|p']|]; try lia.
  - apply SFleb_zero_l, (ratio_good n' (Zpos q)); lia.
  - apply (rounds_mono _ _ _ _ _ _ _ _
             (div_rounds p 0 q 0) (div_rounds p' 0 q 0)).
    apply div_le_value. unfold le_value.
    replace (Z.min 0 0) with 0 by lia. change (2 ^ (0 - 0)) with 1. lia.
Qed.

End B64RoundFacts.

(** ** The engine in exact arithmetic *)

Module ExactFacts.
Import Exact ExactEnergy.
Local Open Scope Q_scope.




Lemma py_sub_exact (a b : pynum Q) :
  exists c, py_sub a b = Ok c /\ val c == val a - val b.
Proof.
  destruct a, b; eexists; (split; [reflexivity|]); cbn [val];
    unfold Z.sub; rewrite ?inject_Z_plus, ?inject_Z_opp; reflexivity.
Qed.


Lemma inject_Z_zero (n : Z) : inject_Z n == 0 <-> n = 0%Z.
Proof.
  change 0 with (inject_Z 0). split; [apply inject_Z_injective|now intros ->].
Qed.




















End ExactFacts.

(** ** The daily energy in binary64 *)

Module B64Energy.
Import B64 B64Round B64RoundFacts.











End B64Energy.

(** ** Doubling in binary64 *)

Module B64Doubling.
Import B64 B64Order B64OrderFacts B64Arith B64Round B64RoundFacts.

Lemma normal_in_inv lo hi x :
  normal_in lo hi x = true ->
  exists m e, x = S754_finite false m e /\
    valid (S754_finite false m e) = true /\ lo <= e <= hi.
Proof.
  destruct x as [| | |[] m e]; try discriminate. cbn [normal_in].
  intros [[Hv Hlo%Z.leb_le]%andb_true_iff Hhi%Z.leb_le]%andb_true_iff.
  exists m, e. split; [reflexivity|]. split; [exact Hv|lia].
Qed.




(** *** Rounding one binade higher *)







(** *** The operations on a doubled argument *)





(** *** [round(_, 1)] of a doubled float *)

Lemma tenths_nonneg m e : 0 <= tenths m e.
Proof.
  unfold tenths. destruct (Z.leb_spec 0 e).
  - pose proof (pow2_pos e ltac:(lia)). nia.
  - apply round_half_even_nonneg; [apply pow2_pos; lia|lia].
Qed.






(** *** The binade of a quotient and of a product *)






(** *** The constants of the calculator *)



Lemma outage_share_normal_table :
  forallb (fun n => normal_in (-60) (-52) (ratio n 168))
    (map Z.of_nat (seq 1 168)) = true.
Proof. vm_compute. reflexivity. Qed.

Lemma outage_share_normal (n : Z) :
  1 <= n <= 168 -> normal_in (-60) (-52) (ratio n 168) = true.
Proof.
  intros Hn.
  apply (proj1 (forallb_forall _ _) outage_share_normal_table).
  apply in_map_iff. exists (Z.to_nat n). split; [lia|].
  apply in_seq. lia.
Qed.

(** *** The calculator on a doubled daily energy *)







End B64Doubling.



(** ** Where binary64 departs from the exact laws *)

Module B64Counterexamples.
Import B64 B64Design.



End B64Counterexamples.

(** ** The panel resolver on any band table *)

Section ResolverFacts.
Context {F : Type} `{FloatArith F}.
Implicit Types (h : pynum F) (bands : list PanelBand).









End ResolverFacts.



(** ** The range strings *)





Section RangeFacts.
Context {F : Type} `{FloatArith F}.


End RangeFacts.


(** ** The sizing in binary64 *)

Module B64SizingFacts.
Import B64 B64Order B64OrderFacts B64Arith B64Round B64RoundFacts.
Import B64Design B64DesignFacts B64Doubling B64Sizing.

Lemma measure_good x : measure x = true -> good x.
Proof.
  unfold measure. intros [[Hv Hn]%andb_true_iff _]%andb_true_iff. now split.
Qed.

Lemma measure_cases x :
  measure x = true ->
  (exists s, x = S754_zero s) \/
  (exists m e, x = S754_finite false m e /\
               valid (S754_finite false m e) = true).
Proof.
  intros Hm. pose proof (measure_good x Hm) as Hg.
  destruct (good_cases x Hg) as [[s ->]|[(m & e & ->)| ->]].
  - left. now exists s.
  - right. exists m, e. split; [reflexivity|exact (proj1 Hg)].
  - discriminate Hm.
Qed.


(** A float below a finite one is finite. *)
Lemma finite_below x u :
  good x -> SFleb x u = true -> finite u = true -> good u ->
  finite x = true.
Proof.
  intros Hx Hle Hu Hgu.
  destruct (good_cases x Hx) as [[s ->]|[(m & e & ->)| ->]]; try reflexivity.
  destruct (good_cases u Hgu) as [[s ->]|[(m & e & ->)| ->]]; discriminate.
Qed.

(** *** Multiplication, in its second argument *)

Lemma mul_le_value_r (mx : positive) ex my ey my' ey' :
  le_value (Zpos my) 1 ey (Zpos my') 1 ey' ->
  le_value (Zpos (mx * my)) 1 (ex + ey) (Zpos (mx * my')) 1 (ex + ey').
Proof.
  unfold le_value. intros Hle.
  replace (Z.min (ex + ey) (ex + ey')) with (ex + Z.min ey ey') by lia.
  replace (ex + ey - (ex + Z.min ey ey')) with (ey - Z.min ey ey') by lia.
  replace (ex + ey' - (ex + Z.min ey ey')) with (ey' - Z.min ey ey') by lia.
  rewrite !Pos2Z.inj_mul. nia.
Qed.

Lemma mul_good_r mx ex y :
  valid (S754_finite false mx ex) = true -> good y ->
  good (mul (S754_finite false mx ex) y).
Proof.
  intros Hx Hy. good_split Hy; [apply good_zero| |apply good_inf].
  exact (rounds_good _ _ _ _ (mul_rounds mx ex m e Hx (good_valid _ _ Hy))).
Qed.

Lemma mul_mono_r mx ex y y' :
  valid (S754_finite false mx ex) = true -> good y -> good y' ->
  SFleb y y' = true ->
  SFleb (mul (S754_finite false mx ex) y) (mul (S754_finite false mx ex) y')
    = true.
Proof.
  intros Hx Hy Hy' Hle.
  pose proof (mul_good_r mx ex y Hx Hy) as Hg.
  pose proof (mul_good_r mx ex y' Hx Hy') as Hg'.
  good_split Hy; good_split Hy';
    try (now apply SFleb_fin_zero in Hle);
    try (now apply SFleb_inf_zero in Hle);
    try (now apply SFleb_inf_fin in Hle);
    try (apply SFleb_zero_l; exact Hg');
    try (apply SFleb_inf_r; exact Hg).
  apply (rounds_mono _ _ _ _ _ _ _ _
           (mul_rounds mx ex m e Hx (good_valid _ _ Hy))
           (mul_rounds mx ex m0 e0 Hx (good_valid _ _ Hy'))).
  apply mul_le_value_r, SFleb_le_value;
    [exact (good_valid _ _ Hy) | exact (good_valid _ _ Hy') | exact Hle].
Qed.

(** *** [round(_, 1)] *)

Lemma tenths_scaled m e c :
  c <= e -> c <= 0 ->
  tenths m e = round_half_even (10 * Zpos m * 2 ^ (e - c)) (2 ^ (- c)).
Proof.
  intros Hce Hc0. unfold tenths.
  pose proof (pow2_pos (- c) ltac:(lia)) as Hp.
  destruct (Z.leb_spec 0 e).
  - replace (e - c) with (e + - c) by lia. rewrite pow2_add by lia.
    rewrite Z.mul_assoc. now rewrite round_half_even_int.
  - replace (- c) with ((e - c) + - e) by lia. rewrite pow2_add by lia.
    rewrite (Z.mul_comm (10 * Zpos m)).
    pose proof (pow2_pos (e - c) ltac:(lia)).
    pose proof (pow2_pos (- e) ltac:(lia)).
    now rewrite round_half_even_scale by lia.
Qed.

Lemma tenths_mono m e m' e' :
  le_value (Zpos m) 1 e (Zpos m') 1 e' -> tenths m e <= tenths m' e'.
Proof.
  unfold le_value. rewrite !Z.mul_1_r. intros Hle.
  set (c := Z.min (Z.min e e') 0).
  rewrite (tenths_scaled m e c), (tenths_scaled m' e' c) by lia.
  pose proof (pow2_pos (- c) ltac:(lia)).
  pose proof (pow2_pos (e - c) ltac:(lia)).
  apply round_half_even_mono; [lia|]. split; [nia|].
  rewrite <- !Z.mul_assoc. apply Z.mul_le_mono_nonneg_l; [lia|].
  apply (le_shift _ _ e e' (Z.min e e')); lia.
Qed.

Lemma round1_ratio m e :
  round1 (S754_finite false m e) = ratio (tenths m e) 10.
Proof.
  cbn [round1]. pose proof (tenths_nonneg m e).
  destruct (tenths m e) as [|p|p]; [reflexivity..|lia].
Qed.

Lemma round1_good x : good x -> good (round1 x).
Proof.
  intros Hx. good_split Hx; try exact Hx.
  rewrite round1_ratio. apply ratio_good; [apply tenths_nonneg|lia].
Qed.

Lemma round1_mono x x' :
  good x -> good x' -> SFleb x x' = true ->
  SFleb (round1 x) (round1 x') = true.
Proof.
  intros Hx Hx' Hle.
  pose proof (round1_good x Hx) as Hg.
  pose proof (round1_good x' Hx') as Hg'.
  good_split Hx; good_split Hx';
    try (now apply SFleb_fin_zero in Hle);
    try (now apply SFleb_inf_zero in Hle);
    try (now apply SFleb_inf_fin in Hle);
    try (apply SFleb_zero_l; exact Hg');
    try (apply SFleb_inf_r; exact Hg).
  rewrite !round1_ratio. apply ratio_mono; [|lia].
  split; [apply tenths_nonneg|].
  apply tenths_mono, SFleb_le_value;
    [exact (good_valid _ _ Hx) | exact (good_valid _ _ Hx') | exact Hle].
Qed.


(** *** The closed form of [compute_design] for whole outage hours *)

Lemma design_b64_of (d g o t : spec_float) (inv : string) (unit : Z) :
  design_b64 d g o t inv unit =
  design_of (array_b64 d g) (battery_b64 o d) d t inv unit.
Proof. reflexivity. Qed.

Lemma size_battery_int (n : Z) (d : spec_float) :
  0 <= n <= 168 ->
  size_battery (PyInt n) (PyFloat d) = Ok (PyFloat (battery_int n d)).
Proof.
  intros Hn. unfold size_battery. cbn [py_truediv]. unfold int_truediv.
  change (168 =? 0) with false. cbn [f_ratio f_finite ops].
  rewrite (outage_share_finite n Hn). reflexivity.
Qed.

Lemma compute_design_int (d g t : spec_float) (n : Z) (inv : string)
    (unit : Z) :
  is_zero g = false -> INVERTER_COSTS !! inv = Some unit -> 0 <= n <= 168 ->
  compute_design (PyFloat d) (PyFloat g) (PyInt n) (PyFloat t) inv =
    Ok (design_of (array_b64 d g) (battery_int n d) d t inv unit).
Proof.
  intros Hg Hinv Hn. unfold compute_design.
  cbn [py_truediv fmap result_fmap mbind result_bind].
  unfold float_truediv at 1. rewrite Hg.
  cbn [fmap result_fmap mbind result_bind py_truediv DERATE_FACTOR].
  change (float_truediv (f_div d g) (lit 80 100))
    with (Ok (div (div d g) (ratio 80 100))).
  cbn [fmap result_fmap mbind result_bind py_round1].
  rewrite subsidy_for_b64.
  cbn [fmap result_fmap mbind result_bind py_round1]. rewrite Hinv.
  cbn [raise_if_none fmap result_fmap mbind result_bind py_round1].
  rewrite (size_battery_int n d Hn), annual_savings_b64.
  apply inverter_cost_cases in Hinv as [-> | [-> | ->]].
  all: unfold design_of, array_b64, payback_for.
  all: cbn [fmap result_fmap mbind result_bind py_round1 py_mul py_sub py_add
              PANEL_COST_PER_KW BATTERY_COST_PER_KWH].
  all: change (to_float 45000) with (Ok (nearest 45000)).
  all: change (to_float 13000) with (Ok (nearest 13000)).
  all: try change (to_float 12000) with (Ok (nearest 12000)).
  all: try change (to_float 18000) with (Ok (nearest 18000)).
  all: try change (to_float 20000) with (Ok (nearest 20000)).
  all: cbn [fmap result_fmap mbind result_bind py_round1 py_mul py_sub py_add
              truthy f_mul f_add f_sub f_div f_round1 ops py_truediv].
  all: unfold float_truediv.
  all: destruct (is_zero (savings_b64 d t)); reflexivity.
Qed.

(** The two failures of [compute_design] on float arguments. *)
Lemma compute_design_zero_ghi (d : spec_float) (ghi o t : pynum spec_float)
    (inv : string) :
  py_eq ghi (PyInt 0) = true ->
  compute_design (PyFloat d) ghi o t inv = Raise ZeroDivisionError.
Proof.
  intros Hz. unfold compute_design. destruct ghi as [k|g].
  - apply Z.eqb_eq in Hz as ->. reflexivity.
  - cbn [py_truediv]. unfold float_truediv, is_zero.
    unfold py_eq in Hz. destruct (f_cmp_int g 0) as [[]|]; try discriminate.
    reflexivity.
Qed.

Lemma compute_design_unknown_inverter (d g : spec_float)
    (o t : pynum spec_float) (inv : string) :
  is_zero g = false -> INVERTER_COSTS !! inv = None ->
  compute_design (PyFloat d) (PyFloat g) o t inv = Raise KeyError.
Proof.
  intros Hg Hinv. unfold compute_design.
  cbn [py_truediv fmap result_fmap mbind result_bind].
  unfold float_truediv at 1. rewrite Hg.
  cbn [fmap result_fmap mbind result_bind py_truediv DERATE_FACTOR].
  change (float_truediv (f_div d g) (lit 80 100))
    with (Ok (div (div d g) (ratio 80 100))).
  cbn [fmap result_fmap mbind result_bind py_round1].
  rewrite subsidy_for_b64.
  cbn [fmap result_fmap mbind result_bind py_round1 py_mul py_sub
         PANEL_COST_PER_KW].
  change (to_float 45000) with (Ok (nearest 45000)).
  cbn [fmap result_fmap mbind result_bind py_sub]. rewrite Hinv. reflexivity.
Qed.

Lemma compute_design_int_inv (d g t : spec_float) (n : Z) (inv : string)
    (r : SolarDesign) :
  0 <= n <= 168 ->
  compute_design (PyFloat d) (PyFloat g) (PyInt n) (PyFloat t) inv = Ok r ->
  exists unit, is_zero g = false /\ INVERTER_COSTS !! inv = Some unit /\
    r = design_of (array_b64 d g) (battery_int n d) d t inv unit.
Proof.
  intros Hn Hr.
  destruct (is_zero g) eqn:Hg.
  { rewrite compute_design_zero_ghi in Hr; [discriminate|].
    unfold py_eq, is_zero in *. now destruct (f_cmp_int g 0) as [[]|]. }
  destruct (INVERTER_COSTS !! inv) as [unit|] eqn:Hinv.
  - rewrite (compute_design_int d g t n inv unit Hg Hinv Hn) in Hr.
    injection Hr as <-. eauto.
  - now rewrite compute_design_unknown_inverter in Hr.
Qed.


(** *** The constants as floats *)

Lemma unit_cost_float (inv : string) (unit : Z) :
  INVERTER_COSTS !! inv = Some unit ->
  exists m e, nearest unit = S754_finite false m e /\
              valid (S754_finite false m e) = true.
Proof.
  intros [-> | [-> | ->]]%inverter_cost_cases;
    do 2 eexists; split; vm_compute; reflexivity.
Qed.

Lemma panel_cost_float :
  exists m e, nearest 45000 = S754_finite false m e /\
              valid (S754_finite false m e) = true.
Proof. do 2 eexists; split; vm_compute; reflexivity. Qed.

Lemma battery_cost_float :
  exists m e, nearest 13000 = S754_finite false m e /\
              valid (S754_finite false m e) = true.
Proof. do 2 eexists; split; vm_compute; reflexivity. Qed.

Lemma roof_factor_float :
  exists m e, ratio 7 1 = S754_finite false m e /\
              valid (S754_finite false m e) = true.
Proof. do 2 eexists; split; vm_compute; reflexivity. Qed.

Lemma derate_float :
  exists m e, ratio 80 100 = S754_finite false m e /\
              valid (S754_finite false m e) = true.
Proof. do 2 eexists; split; vm_compute; reflexivity. Qed.

Lemma reserve_float :
  exists m e, ratio 12 10 = S754_finite false m e /\
              valid (S754_finite false m e) = true.
Proof. do 2 eexists; split; vm_compute; reflexivity. Qed.

Lemma outage_share_cases (n : Z) :
  0 <= n <= 168 ->
  ratio n 168 = S754_zero false \/
  exists m e, ratio n 168 = S754_finite false m e /\
              valid (S754_finite false m e) = true.
Proof.
  intros Hn. destruct (Z.eq_dec n 0) as [->|Hn0]; [now left|right].
  destruct (normal_in_inv _ _ _ (outage_share_normal n ltac:(lia)))
    as (m & e & Hs & Hv & _).
  now exists m, e.
Qed.

(** *** The sizes as functions of the load *)

Lemma array_good (d g : spec_float) :
  good d -> measure g = true -> is_zero g = false -> good (array_b64 d g).
Proof.
  intros Hd Hg Hz.
  destruct (measure_cases g Hg) as [[s ->]|(mg & eg & -> & _)];
    [discriminate Hz|].
  destruct derate_float as (m8 & e8 & H8 & _).
  unfold array_b64. rewrite H8. apply round1_good. unfold div.
  apply div_good, div_good, Hd.
Qed.

Lemma array_mono (d d' g : spec_float) :
  good d -> good d' -> SFleb d d' = true ->
  measure g = true -> is_zero g = false ->
  SFleb (array_b64 d g) (array_b64 d' g) = true.
Proof.
  intros Hd Hd' Hle Hg Hz.
  destruct (measure_cases g Hg) as [[s ->]|(mg & eg & -> & _)];
    [discriminate Hz|].
  destruct derate_float as (m8 & e8 & H8 & _).
  unfold array_b64. rewrite H8. unfold div.
  apply round1_mono; [apply div_good, div_good, Hd
                     |apply div_good, div_good, Hd'|].
  apply div_mono; [apply div_good, Hd|apply div_good, Hd'|].
  now apply div_mono.
Qed.

Lemma battery_good (n : Z) (d : spec_float) :
  0 <= n <= 168 -> measure d = true -> good (battery_int n d).
Proof.
  intros Hn Hd. destruct reserve_float as (mr & er & Hr & Hvr).
  unfold battery_int. rewrite Hr. apply round1_good. unfold mul.
  apply mul_good; [|exact Hvr].
  destruct (outage_share_cases n Hn) as [->|(ms & es & -> & Hvs)].
  - destruct (measure_cases d Hd) as [[s ->]|(m & e & -> & _)];
      apply good_zero.
  - apply mul_good; [exact (measure_good d Hd)|exact Hvs].
Qed.

Lemma battery_mono_load (n : Z) (d d' : spec_float) :
  0 <= n <= 168 -> measure d = true -> measure d' = true ->
  SFleb d d' = true ->
  SFleb (battery_int n d) (battery_int n d') = true.
Proof.
  intros Hn Hd Hd' Hle. destruct reserve_float as (mr & er & Hr & Hvr).
  pose proof (measure_good d Hd) as Hgd.
  pose proof (measure_good d' Hd') as Hgd'.
  unfold battery_int. rewrite Hr. unfold mul.
  destruct (outage_share_cases n Hn) as [->|(ms & es & -> & Hvs)].
  - destruct (measure_cases d Hd) as [[s ->]|(m & e & -> & _)];
      destruct (measure_cases d' Hd') as [[s' ->]|(m' & e' & -> & _)];
      repeat match goal with b : bool |- _ => destruct b end; reflexivity.
  - apply round1_mono.
    + apply mul_good; [apply mul_good; assumption|exact Hvr].
    + apply mul_good; [apply mul_good; assumption|exact Hvr].
    + apply mul_mono; [apply mul_good; assumption..|exact Hvr|].
      now apply mul_mono.
Qed.

Lemma battery_mono_outage (n n' : Z) (d : spec_float) :
  0 <= n <= n' -> n' <= 168 -> measure d = true ->
  SFleb (battery_int n d) (battery_int n' d) = true.
Proof.
  intros Hn Hn' Hd. destruct reserve_float as (mr & er & Hr & Hvr).
  unfold battery_int. rewrite Hr. unfold mul.
  assert (Hs : good (ratio n 168)) by (apply ratio_good; lia).
  assert (Hs' : good (ratio n' 168)) by (apply ratio_good; lia).
  assert (Hss : SFleb (ratio n 168) (ratio n' 168) = true)
    by (apply ratio_mono; lia).
  destruct (measure_cases d Hd) as [[s ->]|(m & e & -> & Hv)].
  - destruct (outage_share_cases n ltac:(lia)) as [->|(ms & es & -> & _)];
      destruct (outage_share_cases n' ltac:(lia)) as [->|(ms' & es' & -> & _)];
      destruct s; reflexivity.
  - apply round1_mono.
    + apply mul_good; [now apply mul_good_r|exact Hvr].
    + apply mul_good; [now apply mul_good_r|exact Hvr].
    + apply mul_mono; [now apply mul_good_r..|exact Hvr|].
      now apply mul_mono_r.
Qed.


(** X5. [compute_design] raises ZeroDivisionError for a zero irradiance,
    int or float, before it looks at the inverter type or at the outage
    hours. *)
Theorem zero_irradiance_raises (daily ghi o t : pynum spec_float)
    (inv : string) :
  py_eq ghi (PyInt 0) = true ->
  (exists d, daily = PyFloat d) \/ ghi = PyInt 0 ->
  compute_design daily ghi o t inv = Raise ZeroDivisionError.
Proof.
  intros Hz [[d ->]| ->]; [now apply compute_design_zero_ghi|].
  destruct daily as [k|d]; [reflexivity|].
  now apply compute_design_zero_ghi.
Qed.

Lemma zero_irradiance_raises_witness :
  compute_design (PyFloat (ratio 132 10)) (PyFloat (S754_zero true))
    (PyInt 4) (PyFloat (ratio 685 100)) "no such inverter"
  = Raise ZeroDivisionError.
Proof.
  apply zero_irradiance_raises; [reflexivity|left; now eexists].
Defined.

Lemma inverter_not_listed (inv : string) :
  ~ In inv inverter_options -> INVERTER_COSTS !! inv = None.
Proof.
  intros Hin. apply not_elem_of_list_to_map_1. cbn.
  intros Hel. apply Hin. apply list_elem_of_In in Hel. exact Hel.
Qed.

(** X6. With float daily energy and a non-zero float irradiance,
    [compute_design] raises KeyError for every inverter type that is not
    one of "grid", "hybrid" and "offgrid", whatever the other
    arguments. *)
Theorem unknown_inverter_raises (d g : spec_float) (o t : pynum spec_float)
    (inv : string) :
  is_zero g = false -> ~ In inv inverter_options ->
  compute_design (PyFloat d) (PyFloat g) o t inv = Raise KeyError.
Proof.
  intros Hg Hin.
  apply compute_design_unknown_inverter; [exact Hg|].
  now apply inverter_not_listed.
Qed.

Lemma unknown_inverter_raises_witness :
  compute_design (PyFloat (ratio 132 10)) (PyFloat (ratio 55 10))
    (PyInt 4) (PyFloat (ratio 685 100)) "Hybrid" = Raise KeyError.
Proof.
  apply unknown_inverter_raises; [reflexivity|].
  intros [H|[H|[H|[]]]]; discriminate H.
Defined.

(** X7. A larger daily energy never gives a smaller system: with the same
    irradiance, outage hours, tariff and inverter type, the PV capacity,
    the roof area, the inverter cost, the battery capacity and the battery
    cost of [compute_design] do not decrease when the daily energy
    increases (binary64, daily energies and irradiance finite and not
    negative). *)
Theorem sizing_monotone_in_load (d d' g t : spec_float) (n : Z)
    (inv : string) (r r' : SolarDesign) :
  measure d = true -> measure d' = true -> SFleb d d' = true ->
  measure g = true -> 0 <= n <= 168 ->
  compute_design (PyFloat d) (PyFloat g) (PyInt n) (PyFloat t) inv = Ok r ->
  compute_design (PyFloat d') (PyFloat g) (PyInt n) (PyFloat t) inv = Ok r' ->
  py_le (pv_kw r) (pv_kw r') = true /\
  py_le (roof_area_m2 r) (roof_area_m2 r') = true /\
  py_le (inverter_cost r) (inverter_cost r') = true /\
  py_le (battery_kwh r) (battery_kwh r') = true /\
  py_le (battery_cost r) (battery_cost r') = true.
Proof.
  intros Hd Hd' Hle Hg Hn Hr Hr'.
  apply (compute_design_int_inv _ _ _ _ _ _ Hn) in Hr
    as (unit & Hz & Hinv & ->).
  apply (compute_design_int_inv _ _ _ _ _ _ Hn) in Hr'
    as (unit' & _ & Hinv' & ->).
  assert (unit' = unit) by congruence. subst unit'.
  pose proof (measure_good d Hd) as Hgd.
  pose proof (measure_good d' Hd') as Hgd'.
  pose proof (array_good d g Hgd Hg Hz) as Hpv.
  pose proof (array_good d' g Hgd' Hg Hz) as Hpv'.
  pose proof (array_mono d d' g Hgd Hgd' Hle Hg Hz) as Hpvle.
  pose proof (battery_good n d Hn Hd) as Hb.
  pose proof (battery_good n d' Hn Hd') as Hb'.
  pose proof (battery_mono_load n d d' Hn Hd Hd' Hle) as Hble.
  destruct (unit_cost_float inv unit Hinv) as (mu & eu & Hu & Hvu).
  destruct battery_cost_float as (mb & eb & Hbc & Hvb).
  destruct roof_factor_float as (mf & ef & Hf & Hvf).
  unfold design_of, py_le.
  cbn [pv_kw roof_area_m2 inverter_cost battery_kwh battery_cost f_leb ops].
  rewrite Hu, Hbc, Hf. unfold mul.
  split; [exact Hpvle|].
  split; [now apply mul_mono|].
  split; [now apply mul_mono|].
  split; [exact Hble|now apply mul_mono].
Qed.

Lemma sizing_monotone_in_load_witness :
  exists r r' : SolarDesign,
    compute_design (PyFloat (ratio 104 100)) (PyFloat (ratio 50 10)) (PyInt 4)
      (PyFloat (ratio 685 100)) "hybrid" = Ok r /\
    compute_design (PyFloat (ratio 132 10)) (PyFloat (ratio 50 10)) (PyInt 4)
      (PyFloat (ratio 685 100)) "hybrid" = Ok r' /\
    py_le (pv_kw r) (pv_kw r') = true /\
    py_le (battery_kwh r) (battery_kwh r') = true.
Proof.
  assert (Hr : exists r,
            compute_design (PyFloat (ratio 104 100)) (PyFloat (ratio 50 10))
              (PyInt 4) (PyFloat (ratio 685 100)) "hybrid" = Ok r)
    by (eexists; vm_compute; reflexivity).
  assert (Hr' : exists r,
            compute_design (PyFloat (ratio 132 10)) (PyFloat (ratio 50 10))
              (PyInt 4) (PyFloat (ratio 685 100)) "hybrid" = Ok r)
    by (eexists; vm_compute; reflexivity).
  destruct Hr as [r Hr], Hr' as [r' Hr'].
  exists r, r'. split; [exact Hr|]. split; [exact Hr'|].
  destruct (sizing_monotone_in_load (ratio 104 100) (ratio 132 10)
              (ratio 50 10) (ratio 685 100) 4 "hybrid" r r')
    as (H1 & _ & _ & H4 & _);
    [reflexivity|reflexivity|reflexivity|reflexivity|lia|exact Hr|exact Hr'|].
  now split.
Defined.

(** X8. More outage hours never give a smaller battery: for a finite,
    non-negative daily energy, [size_battery] does not decrease when the
    whole number of outage hours increases within 0..168. *)
Theorem battery_monotone_in_outage (n n' : Z) (d : spec_float)
    (b b' : pynum spec_float) :
  0 <= n <= n' -> n' <= 168 -> measure d = true ->
  size_battery (PyInt n) (PyFloat d) = Ok b ->
  size_battery (PyInt n') (PyFloat d) = Ok b' ->
  py_le b b' = true.
Proof.
  intros Hn Hn' Hd Hb Hb'.
  rewrite size_battery_int in Hb, Hb' by lia.
  injection Hb as <-. injection Hb' as <-.
  exact (battery_mono_outage n n' d Hn Hn' Hd).
Qed.

Lemma battery_monotone_in_outage_witness :
  exists b b' : pynum spec_float,
    size_battery (PyInt 4) (PyFloat (ratio 132 10)) = Ok b /\
    size_battery (PyInt 40) (PyFloat (ratio 132 10)) = Ok b' /\
    py_le b b' = true.
Proof.
  assert (Hb : exists b : pynum spec_float,
            size_battery (PyInt 4) (PyFloat (ratio 132 10)) = Ok b)
    by (eexists; vm_compute; reflexivity).
  assert (Hb' : exists b : pynum spec_float,
            size_battery (PyInt 40) (PyFloat (ratio 132 10)) = Ok b)
    by (eexists; vm_compute; reflexivity).
  destruct Hb as [b Hb], Hb' as [b' Hb'].
  exists b, b'. split; [exact Hb|]. split; [exact Hb'|].
  apply (battery_monotone_in_outage 4 40 (ratio 132 10) b b');
    [lia|lia|reflexivity|exact Hb|exact Hb'].
Defined.


Lemma is_nil_zero (s : bool) :
  py_eq (F:=spec_float) (PyFloat (S754_zero s)) (PyInt 0) = true.
Proof. reflexivity. Qed.

Lemma savings_of_nothing (s : bool) (t : spec_float) :
  measure t = true -> exists s', savings_b64 (S754_zero s) t = S754_zero s'.
Proof.
  intros Ht. destruct (measure_cases t Ht) as [[st ->]|(mt & et & -> & _)];
    destruct s; eexists; reflexivity.
Qed.

(** X4. An empty load gives an empty system: for a daily energy of zero,
    with any finite positive irradiance, any finite tariff that is not
    negative, any whole number of outage hours in 0..168 and any of the
    three inverter types, [compute_design] returns a PV capacity, roof
    area, battery capacity and costs that are all zero, and the payback is
    the sentinel int 0. *)
Theorem empty_load_design (s : bool) (g t : spec_float) (n : Z)
    (inv : string) (r : SolarDesign) :
  measure g = true -> measure t = true -> 0 <= n <= 168 ->
  compute_design (PyFloat (S754_zero s)) (PyFloat g) (PyInt n) (PyFloat t) inv
    = Ok r ->
  py_eq (pv_kw r) (PyInt 0) = true /\
  py_eq (pv_cost r) (PyInt 0) = true /\
  py_eq (roof_area_m2 r) (PyInt 0) = true /\
  py_eq (inverter_cost r) (PyInt 0) = true /\
  py_eq (battery_kwh r) (PyInt 0) = true /\
  py_eq (battery_cost r) (PyInt 0) = true /\
  payback_years r = PyInt 0.
Proof.
  intros Hg Ht Hn Hr.
  apply (compute_design_int_inv _ _ _ _ _ _ Hn) in Hr
    as (unit & Hz & Hinv & ->).
  destruct (measure_cases g Hg) as [[sg ->]|(mg & eg & -> & _)];
    [discriminate Hz|].
  assert (Hpv : array_b64 (S754_zero s) (S754_finite false mg eg)
                = S754_zero s) by now destruct s.
  assert (Hb : battery_int n (S754_zero s) = S754_zero s).
  { unfold battery_int.
    destruct (outage_share_cases n Hn) as [->|(ms & es & -> & _)];
      now destruct s. }
  destruct (savings_of_nothing s t Ht) as [s' Hsav].
  destruct (unit_cost_float inv unit Hinv) as (mu & eu & Hu & _).
  unfold design_of.
  cbn [pv_kw pv_cost roof_area_m2 inverter_cost battery_kwh battery_cost
         payback_years].
  rewrite Hpv, Hb, Hsav, Hu.
  repeat split; now destruct s.
Qed.

Lemma empty_load_design_witness :
  exists r : SolarDesign,
    compute_design (PyFloat (S754_zero false)) (PyFloat (ratio 55 10))
      (PyInt 4) (PyFloat (ratio 685 100)) "hybrid" = Ok r /\
    py_eq (pv_kw r) (PyInt 0) = true /\ payback_years r = PyInt 0.
Proof.
  assert (Hr : exists r,
            compute_design (PyFloat (S754_zero false)) (PyFloat (ratio 55 10))
              (PyInt 4) (PyFloat (ratio 685 100)) "hybrid" = Ok r)
    by (eexists; vm_compute; reflexivity).
  destruct Hr as [r Hr]. exists r. split; [exact Hr|].
  destruct (empty_load_design false (ratio 55 10) (ratio 685 100) 4
              "hybrid" r) as (H1 & _ & _ & _ & _ & _ & H7);
    [reflexivity|reflexivity|lia|exact Hr|].
  now split.
Defined.


(** *** The subsidy and the cost of the array *)

Lemma SFleb_trans x y z :
  SFleb x y = true -> SFleb y z = true -> SFleb x z = true.
Proof.
  rewrite !SFleb_key.
  destruct (key x) as [[[? ?] ?]|], (key y) as [[[? ?] ?]|],
    (key z) as [[[? ?] ?]|]; cbn [key_leb]; try discriminate.
  rewrite !negb_true_iff, <- !not_true_iff_false, !lex_ltb_spec. lia.
Qed.

Lemma SFleb_of_le_value m e m' e' :
  valid (S754_finite false m e) = true ->
  valid (S754_finite false m' e') = true ->
  le_value (Zpos m) 1 e (Zpos m') 1 e' ->
  SFleb (S754_finite false m e) (S754_finite false m' e') = true.
Proof.
  intros Hv Hv' Hle.
  exact (rounds_mono _ _ _ _ _ _ _ _
           (finite_rounds _ _ Hv) (finite_rounds _ _ Hv') Hle).
Qed.

(** [cmp_int _ 3] agrees with the comparison with the float [3.0]. *)
Lemma cmp_three pv :
  good pv ->
  match cmp_int pv 3 with
  | Some Gt => SFleb (nearest 3) pv = true
  | Some _ => SFleb pv (nearest 3) = true
  | None => False
  end.
Proof.
  intros Hg. good_split Hg; try reflexivity.
  pose proof (good_valid _ _ Hg) as Hv.
  change (nearest 3) with (S754_finite false 6755399441055744 (-51)).
  assert (H3 : valid (S754_finite false 6755399441055744 (-51)) = true)
    by reflexivity.
  assert (Hle : forall a b : Z,
            (a <= b -> Zpos m * 2 ^ (e - Z.min e (-51)) * a
                       <= 6755399441055744 * 2 ^ (-51 - Z.min e (-51)) * b) ->
            True) by trivial.
  clear Hle. cbn [cmp_int].
  assert (Hp51 : 2 ^ 51 = 2251799813685248) by reflexivity.
  destruct (Z.leb_spec 0 e) as [He|He].
  - pose proof (pow2_pos e He) as Hpe.
    assert (Hc : 2 ^ (e + 51) = 2 ^ e * 2251799813685248)
      by (rewrite pow2_add by lia; now rewrite Hp51).
    destruct (Z.compare_spec (Zpos m * 2 ^ e) 3) as [Hc3|Hc3|Hc3].
    + apply SFleb_of_le_value; try assumption. unfold le_value.
      replace (Z.min e (-51)) with (-51) by lia.
      replace (e - -51) with (e + 51) by lia. rewrite Hc.
      change (2 ^ (-51 - -51)) with 1. nia.
    + apply SFleb_of_le_value; try assumption. unfold le_value.
      replace (Z.min e (-51)) with (-51) by lia.
      replace (e - -51) with (e + 51) by lia. rewrite Hc.
      change (2 ^ (-51 - -51)) with 1. nia.
    + apply SFleb_of_le_value; try assumption. unfold le_value.
      replace (Z.min (-51) e) with (-51) by lia.
      replace (e - -51) with (e + 51) by lia. rewrite Hc.
      change (2 ^ (-51 - -51)) with 1. nia.
  - pose proof (pow2_pos (- e) ltac:(lia)) as Hpe.
    set (c := Z.min e (-51)).
    assert (Hq : 2 ^ (- c) = 2 ^ (- e) * 2 ^ (e - c))
      by (rewrite <- pow2_add by lia; f_equal; lia).
    assert (Hr : 2 ^ (- c) = 2251799813685248 * 2 ^ (-51 - c))
      by (rewrite <- Hp51, <- pow2_add by lia; f_equal; lia).
    pose proof (pow2_pos (e - c) ltac:(lia)).
    pose proof (pow2_pos (-51 - c) ltac:(lia)).
    destruct (Z.compare_spec (Zpos m) (3 * 2 ^ (- e))) as [Hc3|Hc3|Hc3].
    + apply SFleb_of_le_value; try assumption. unfold le_value.
      fold c. nia.
    + apply SFleb_of_le_value; try assumption. unfold le_value.
      fold c. nia.
    + apply SFleb_of_le_value; try assumption. unfold le_value.
      rewrite Z.min_comm. fold c. nia.
Qed.

Lemma binary_round_rounds (p : positive) (e : Z) :
  rounds (binary_round prec emax false p e) (round_num p e) 1 (round_exp p e).
Proof.
  assert (Hr : round_exp p e <= e) by (unfold round_exp; lia).
  pose proof (pow2_pos (e - round_exp p e) ltac:(lia)).
  split; [unfold round_num; nia|]. split; [lia|].
  split; [apply round_precondition|]. apply binary_round_pack.
Qed.

(** The difference of two floats that are not negative is not negative
    when the second is not the larger. *)
Lemma sub_good a b :
  good a -> good b -> finite b = true -> SFleb b a = true -> good (sub a b).
Proof.
  intros Ha Hb Hf Hle.
  good_split Hb; [| |discriminate Hf].
  - good_split Ha; try exact Ha. destruct s, s0; apply good_zero.
  - good_split Ha; [now apply SFleb_fin_zero in Hle| |exact good_inf].
    pose proof (SFleb_le_value _ _ _ _ (good_valid _ _ Hb)
                  (good_valid _ _ Ha) Hle) as Hv.
    unfold le_value in Hv. rewrite !Z.mul_1_r in Hv.
    unfold sub, SFsub. cbn [cond_Zopp].
    destruct (shl_align_spec m0 e0 (Z.min e0 e)) as [H0 _].
    destruct (shl_align_spec m e (Z.min e0 e)) as [H1 _].
    replace (Z.min e0 (Z.min e0 e)) with (Z.min e e0) in H0 by lia.
    replace (Z.min e (Z.min e0 e)) with (Z.min e e0) in H1 by lia.
    destruct (Z.pos (fst (shl_align m0 e0 (Z.min e0 e)))
              - Z.pos (fst (shl_align m e (Z.min e0 e)))) as [|p|p] eqn:HD.
    + apply good_zero.
    + cbn [binary_normalize].
      exact (rounds_good _ _ _ _ (binary_round_rounds p (Z.min e0 e))).
    + lia.
Qed.

Lemma div_le_self x my ey :
  good x -> ey <= 0 -> 2 ^ (- ey) <= Zpos my ->
  SFleb (div x (S754_finite false my ey)) x = true.
Proof.
  intros Hx Hey Hy. unfold div.
  pose proof (div_good x my ey Hx) as Hg.
  good_split Hx; [reflexivity| |reflexivity].
  apply (rounds_mono _ _ _ _ _ _ _ _ (div_rounds m e my ey)
           (finite_rounds _ _ (good_valid _ _ Hx))).
  unfold le_value. rewrite Z.mul_1_r.
  pose proof (div_exp_le m e my ey) as HE.
  set (E := div_exp m e my ey) in *. set (c := Z.min E e).
  unfold div_num. fold E.
  rewrite <- Z.mul_assoc, <- pow2_add by lia.
  replace (e - ey - E + (E - c)) with (- ey + (e - c)) by lia.
  rewrite pow2_add by lia.
  pose proof (pow2_pos (e - c) ltac:(lia)).
  pose proof (pow2_pos (- ey) ltac:(lia)). nia.
Qed.

Lemma subsidy_good pv : good pv -> good (subsidy_b64 pv).
Proof.
  intros Hg. unfold subsidy_b64.
  assert (Hlow : good (div (mul pv (nearest 26000)) (nearest 3))).
  { change (nearest 26000)
      with (S754_finite false 7146825580544000 (-38)).
    change (nearest 3) with (S754_finite false 6755399441055744 (-51)).
    unfold div, mul. now apply div_good, mul_good. }
  destruct (cmp_int pv 3) as [[]|]; try exact Hlow.
  apply ratio_good; lia.
Qed.

Lemma subsidy_capped pv :
  good pv -> SFleb (subsidy_b64 pv) (nearest 26000) = true.
Proof.
  intros Hg. pose proof (cmp_three pv Hg) as H3. unfold subsidy_b64.
  destruct (cmp_int pv 3) as [[]|]; [| |reflexivity|contradiction].
  all: apply (SFleb_trans _ (div (mul (nearest 3) (nearest 26000)) (nearest 3)));
         [|vm_compute; reflexivity].
  all: pose proof (nearest_good 3 ltac:(lia)) as Hg3.
  all: change (nearest 26000) with (S754_finite false 7146825580544000 (-38)).
  all: unfold div.
  all: change (SFdiv prec emax ?a (nearest 3))
         with (SFdiv prec emax a (S754_finite false 6755399441055744 (-51))).
  all: unfold mul; apply div_mono;
         [now apply mul_good|now apply mul_good|now apply mul_mono].
Qed.

Lemma subsidy_below_gross pv :
  good pv -> SFleb (subsidy_b64 pv) (mul pv (nearest 45000)) = true.
Proof.
  intros Hg. pose proof (cmp_three pv Hg) as H3.
  pose proof (nearest_good 3 ltac:(lia)) as Hg3.
  assert (Hlow : SFleb (div (mul pv (nearest 26000)) (nearest 3))
                       (mul pv (nearest 45000)) = true).
  { apply (SFleb_trans _ (mul pv (nearest 26000))).
    - change (nearest 3) with (S754_finite false 6755399441055744 (-51)).
      apply div_le_self; [|lia|now vm_compute].
      change (nearest 26000)
        with (S754_finite false 7146825580544000 (-38)).
      now apply mul_good.
    - good_split Hg.
      + now destruct s.
      + apply mul_mono_r; [exact (good_valid _ _ Hg)|apply nearest_good; lia..|].
        apply nearest_mono. lia.
      + reflexivity. }
  unfold subsidy_b64.
  destruct (cmp_int pv 3) as [[]|]; [exact Hlow|exact Hlow| |contradiction].
  apply (SFleb_trans _ (mul (nearest 3) (nearest 45000)));
    [vm_compute; reflexivity|].
  change (nearest 45000) with (S754_finite false 6184752906240000 (-37)).
  unfold mul. now apply mul_mono.
Qed.


Lemma good_not_negative x : good x -> py_le (PyInt 0) (PyFloat x) = true.
Proof.
  intros Hg. unfold py_le. cbn [f_cmp_int ops].
  good_split Hg; try reflexivity.
  cbn [cmp_int]. destruct (Z.leb_spec 0 e) as [He|He].
  - pose proof (pow2_pos e He).
    destruct (Z.compare_spec (Zpos m * 2 ^ e) 0); try reflexivity; nia.
  - reflexivity.
Qed.

(** X10. The subsidy never exceeds the price of the panels: for a finite,
    non-negative daily energy and a finite positive irradiance, the
    subsidy [compute_design] deducts lies between 0 and 26000 and the PV
    cost it reports, panels less subsidy, is not negative. *)
Theorem array_cost_not_negative (d g t : spec_float) (n : Z) (inv : string)
    (r : SolarDesign) :
  measure d = true -> measure g = true -> 0 <= n <= 168 ->
  compute_design (PyFloat d) (PyFloat g) (PyInt n) (PyFloat t) inv = Ok r ->
  exists pv s,
    pv_kw r = PyFloat pv /\ subsidy_for (PyFloat pv) = Ok (PyFloat s) /\
    pv_cost r = PyFloat (sub (mul pv (nearest 45000)) s) /\
    py_le (PyInt 0) (PyFloat s) = true /\
    py_le (PyFloat s) (PyFloat (nearest 26000)) = true /\
    py_le (PyInt 0) (pv_cost r) = true.
Proof.
  intros Hd Hg Hn Hr.
  apply (compute_design_int_inv _ _ _ _ _ _ Hn) in Hr
    as (unit & Hz & Hinv & ->).
  pose proof (array_good d g (measure_good d Hd) Hg Hz) as Hpv.
  pose proof (subsidy_good _ Hpv) as Hs.
  pose proof (subsidy_capped _ Hpv) as Hcap.
  pose proof (subsidy_below_gross _ Hpv) as Hlow.
  exists (array_b64 d g), (subsidy_b64 (array_b64 d g)).
  split; [reflexivity|]. split; [apply subsidy_for_b64|].
  split; [reflexivity|].
  split; [now apply good_not_negative|]. split; [exact Hcap|].
  cbn [design_of pv_cost]. apply good_not_negative, sub_good.
  - change (nearest 45000) with (S754_finite false 6184752906240000 (-37)).
    unfold mul. now apply mul_good.
  - exact Hs.
  - apply (finite_below _ (nearest 26000)); [exact Hs|exact Hcap|reflexivity|].
    apply nearest_good. lia.
  - exact Hlow.
Qed.

Lemma array_cost_not_negative_witness :
  exists r : SolarDesign,
    compute_design (PyFloat (ratio 132 10)) (PyFloat (ratio 55 10)) (PyInt 4)
      (PyFloat (ratio 685 100)) "hybrid" = Ok r /\
    py_le (PyInt 0) (pv_cost r) = true.
Proof.
  assert (Hr : exists r,
            compute_design (PyFloat (ratio 132 10)) (PyFloat (ratio 55 10))
              (PyInt 4) (PyFloat (ratio 685 100)) "hybrid" = Ok r)
    by (eexists; vm_compute; reflexivity).
  destruct Hr as [r Hr]. exists r. split; [exact Hr|].
  destruct (array_cost_not_negative (ratio 132 10) (ratio 55 10)
              (ratio 685 100) 4 "hybrid" r)
    as (pv & s & _ & _ & _ & _ & _ & H);
    [reflexivity|reflexivity|lia|exact Hr|exact H].
Defined.


(** *** Division, in its second argument *)

Lemma div_le_value_r mx ex my ey my' ey' :
  le_value (Zpos my) 1 ey (Zpos my') 1 ey' ->
  le_value (div_num mx ex my' ey') (Zpos my') (div_exp mx ex my' ey')
           (div_num mx ex my ey) (Zpos my) (div_exp mx ex my ey).
Proof.
  unfold le_value. rewrite !Z.mul_1_r. intros Hle.
  pose proof (div_exp_le mx ex my ey) as H1.
  pose proof (div_exp_le mx ex my' ey') as H2.
  set (E := div_exp mx ex my ey) in *. set (E' := div_exp mx ex my' ey') in *.
  set (c := Z.min E' E). set (a := Z.min ey ey') in *.
  set (K := ex - c - ey - ey' + a).
  assert (HK : 0 <= K) by (subst K a; lia).
  unfold div_num. fold E E'.
  assert (Ha : Zpos mx * 2 ^ (ex - ey' - E') * Zpos my * 2 ^ (E' - c)
               = Zpos mx * 2 ^ K * (Zpos my * 2 ^ (ey - a))).
  { rewrite <- !Z.mul_assoc. f_equal.
    rewrite (Z.mul_comm (Zpos my)), !Z.mul_assoc, <- pow2_add by lia.
    rewrite (Z.mul_comm (2 ^ K)), <- Z.mul_assoc, <- pow2_add by lia.
    rewrite Z.mul_comm. do 2 f_equal. lia. }
  assert (Hb : Zpos mx * 2 ^ (ex - ey - E) * Zpos my' * 2 ^ (E - c)
               = Zpos mx * 2 ^ K * (Zpos my' * 2 ^ (ey' - a))).
  { rewrite <- !Z.mul_assoc. f_equal.
    rewrite (Z.mul_comm (Zpos my')), !Z.mul_assoc, <- pow2_add by lia.
    rewrite (Z.mul_comm (2 ^ K)), <- Z.mul_assoc, <- pow2_add by lia.
    rewrite Z.mul_comm. do 2 f_equal. lia. }
  rewrite Ha, Hb. apply Z.mul_le_mono_nonneg_l; [|exact Hle].
  pose proof (pow2_pos K HK). lia.
Qed.

Lemma div_mono_r x my ey my' ey' :
  good x ->
  valid (S754_finite false my ey) = true ->
  valid (S754_finite false my' ey') = true ->
  SFleb (S754_finite false my ey) (S754_finite false my' ey') = true ->
  SFleb (div x (S754_finite false my' ey')) (div x (S754_finite false my ey))
    = true.
Proof.
  intros Hx Hy Hy' Hle. unfold div.
  good_split Hx; [now destruct s|..|reflexivity].
  apply (rounds_mono _ _ _ _ _ _ _ _
           (div_rounds m e my' ey') (div_rounds m e my ey)).
  now apply div_le_value_r, SFleb_le_value.
Qed.

(** X9. A sunnier site never needs a larger array: with the same daily
    energy (finite, not negative), the PV capacity, the roof area and the
    inverter cost of [compute_design] do not increase when the irradiance
    (finite, positive) increases. *)
Theorem array_antitone_in_irradiance (d g g' t : spec_float) (n : Z)
    (inv : string) (r r' : SolarDesign) :
  measure d = true -> measure g = true -> measure g' = true ->
  SFleb g g' = true -> 0 <= n <= 168 ->
  compute_design (PyFloat d) (PyFloat g) (PyInt n) (PyFloat t) inv = Ok r ->
  compute_design (PyFloat d) (PyFloat g') (PyInt n) (PyFloat t) inv = Ok r' ->
  py_le (pv_kw r') (pv_kw r) = true /\
  py_le (roof_area_m2 r') (roof_area_m2 r) = true /\
  py_le (inverter_cost r') (inverter_cost r) = true.
Proof.
  intros Hd Hg Hg' Hle Hn Hr Hr'.
  apply (compute_design_int_inv _ _ _ _ _ _ Hn) in Hr
    as (unit & Hz & Hinv & ->).
  apply (compute_design_int_inv _ _ _ _ _ _ Hn) in Hr'
    as (unit' & Hz' & Hinv' & ->).
  assert (unit' = unit) by congruence. subst unit'.
  pose proof (measure_good d Hd) as Hgd.
  pose proof (array_good d g Hgd Hg Hz) as Hpv.
  pose proof (array_good d g' Hgd Hg' Hz') as Hpv'.
  assert (Hpvle : SFleb (array_b64 d g') (array_b64 d g) = true).
  { destruct (measure_cases g Hg) as [[s ->]|(mg & eg & -> & Hvg)];
      [discriminate Hz|].
    destruct (measure_cases g' Hg') as [[s ->]|(mg' & eg' & -> & Hvg')];
      [discriminate Hz'|].
    destruct derate_float as (m8 & e8 & H8 & _).
    unfold array_b64. rewrite H8.
    apply round1_mono;
      [unfold div; apply div_good, div_good, Hgd
      |unfold div; apply div_good, div_good, Hgd|].
    unfold div at 1 3.
    apply div_mono; [apply div_good, Hgd|apply div_good, Hgd|].
    now apply div_mono_r. }
  destruct (unit_cost_float inv unit Hinv) as (mu & eu & Hu & Hvu).
  destruct roof_factor_float as (mf & ef & Hf & Hvf).
  unfold design_of, py_le.
  cbn [pv_kw roof_area_m2 inverter_cost f_leb ops].
  rewrite Hu, Hf. unfold mul.
  split; [exact Hpvle|]. split; now apply mul_mono.
Qed.

Lemma array_antitone_in_irradiance_witness :
  exists r r' : SolarDesign,
    compute_design (PyFloat (ratio 132 10)) (PyFloat (ratio 45 10)) (PyInt 4)
      (PyFloat (ratio 685 100)) "hybrid" = Ok r /\
    compute_design (PyFloat (ratio 132 10)) (PyFloat (ratio 58 10)) (PyInt 4)
      (PyFloat (ratio 685 100)) "hybrid" = Ok r' /\
    py_le (pv_kw r') (pv_kw r) = true.
Proof.
  assert (Hr : exists r,
            compute_design (PyFloat (ratio 132 10)) (PyFloat (ratio 45 10))
              (PyInt 4) (PyFloat (ratio 685 100)) "hybrid" = Ok r)
    by (eexists; vm_compute; reflexivity).
  assert (Hr' : exists r,
            compute_design (PyFloat (ratio 132 10)) (PyFloat (ratio 58 10))
              (PyInt 4) (PyFloat (ratio 685 100)) "hybrid" = Ok r)
    by (eexists; vm_compute; reflexivity).
  destruct Hr as [r Hr], Hr' as [r' Hr'].
  exists r, r'. split; [exact Hr|]. split; [exact Hr'|].
  destruct (array_antitone_in_irradiance (ratio 132 10) (ratio 45 10)
              (ratio 58 10) (ratio 685 100) 4 "hybrid" r r')
    as (H1 & _);
    [reflexivity|reflexivity|reflexivity|reflexivity|lia|exact Hr|exact Hr'|].
  exact H1.
Defined.

End B64SizingFacts.

(** ** The load form in binary64 *)

Module B64FormFacts.
Import B64 B64Order B64OrderFacts B64Arith B64Round B64RoundFacts.
Import B64Design B64DesignFacts B64Energy B64Doubling B64Sizing B64SizingFacts.
Import B64Form.

(** *** The two appliance tables *)

Lemma kind_tables (appl : string) :
  In appl APPLIANCE_KINDS ->
  exists rated hours,
    APPLIANCE_P_RATED !! appl = Some rated /\
    DEFAULT_DUTY_HOURS (F:=spec_float) !! appl = Some hours.
Proof.
  intros Hin. cbn in Hin.
  repeat (destruct Hin as [<-|Hin]; [do 2 eexists; split; reflexivity|]).
  destruct Hin.
Qed.



(** *** A summand below one that does not overflow *)





(** *** The running sum *)











(** *** A quantity beyond the range of a double *)






End B64FormFacts.

(** ** The handler in binary64 *)

Module B64HandlerFacts.
Import B64 B64Order B64OrderFacts B64Arith B64Round B64RoundFacts.
Import B64Design B64DesignFacts B64Energy B64Doubling B64Sizing B64SizingFacts.
Import B64Form B64FormFacts.

(** *** The options of the form *)

Lemma city_option_profile (c : string) :
  In c city_options ->
  exists p : CityProfile (F:=spec_float),
    CITY_SOLAR_DATA !! c = Some p /\
    normal_in (-50) (-50) (ghi p) = true /\
    normal_in (-50) (-50) (grid_tariff p) = true.
Proof.
  intros Hin. cbn in Hin.
  repeat (destruct Hin as [<-|Hin];
          [eexists; split; [reflexivity|]; split; vm_compute; reflexivity|]).
  destruct Hin.
Qed.

Lemma city_key_option (c : string) (p : CityProfile (F:=spec_float)) :
  CITY_SOLAR_DATA !! c = Some p -> c <> "default"%string -> In c city_options.
Proof.
  intros Hl Hne. apply elem_of_list_to_map_2 in Hl.
  repeat (apply elem_of_cons in Hl as [[= -> _]|Hl];
          [first [cbn; tauto|now destruct Hne]|]).
  now apply elem_of_nil in Hl.
Qed.

Lemma normal_not_zero lo hi x : normal_in lo hi x = true -> is_zero x = false.
Proof.
  intros (m & e & -> & _)%normal_in_inv. unfold is_zero.
  cbn [f_cmp_int ops cmp_int]. destruct (Z.leb_spec 0 e) as [He|He].
  - pose proof (pow2_pos e He).
    destruct (Z.compare_spec (Zpos m * 2 ^ e) 0); try reflexivity; nia.
  - reflexivity.
Qed.

(** X2. The city selectbox offers every key of the city table except
    "default".  Each option has a row of its own, which the handler's
    lookup returns (the fallback is never used from the form), with an
    irradiance and a grid tariff that are not zero. *)
Theorem city_options_profiles (c : string) :
  (In c city_options <->
   c <> "default"%string /\ is_Some (CITY_SOLAR_DATA (F:=spec_float) !! c)) /\
  (In c city_options ->
   exists p : CityProfile (F:=spec_float),
     CITY_SOLAR_DATA !! c = Some p /\ city_data c = Ok p /\
     is_zero (ghi p) = false /\ is_zero (grid_tariff p) = false).
Proof.
  split; [split|].
  - intros Hin. split.
    + intros ->. cbn in Hin.
      repeat (destruct Hin as [Hin|Hin]; [discriminate Hin|]). exact Hin.
    + destruct (city_option_profile c Hin) as (p & Hp & _). now exists p.
  - intros [Hne [p Hp]]. exact (city_key_option c p Hp Hne).
  - intros Hin. destruct (city_option_profile c Hin) as (p & Hp & Hg & Ht).
    exists p. split; [exact Hp|]. split.
    + unfold city_data. rewrite Hp. reflexivity.
    + split; [exact (normal_not_zero _ _ _ Hg)|exact (normal_not_zero _ _ _ Ht)].
Qed.

Lemma city_options_profiles_witness :
  exists p, city_data (F:=spec_float) "kolkata" = Ok p /\
            is_zero (ghi p) = false.
Proof.
  destruct (proj2 (city_options_profiles "kolkata"))
    as (p & _ & Hp & Hg & _); [cbn; tauto|].
  exists p. now split.
Defined.


(** *** The handler on the inputs of the form *)









(** *** The payback *)







End B64HandlerFacts.
